(** * Etsy top-terms identifier: a shallow embedding of [main.py]

    The word-frequency pipeline of [main.py] (normalising tokens, dropping
    stop words, counting, selecting the top [n] words) and the orchestrator
    that feeds it from the listing source, with the properties the
    specification states about them. *)

From Stdlib Require Import ZArith.
From Stdlib Require Import String Ascii.
From stdpp Require Import base list gmap sets sorting.
Close Scope string_scope.

Local Open Scope Z_scope.
Local Open Scope nat_scope.

(** ** Python values *)

(** A Python [str] is a sequence of Unicode code points. *)
Abbreviation char := N.
Abbreviation str := (list char).

(** Exceptions the program can raise. *)
Inductive exn :=
  | ValueError
  | KeyError
  | ConnectionError.

(** Outcome of a computation that may raise. *)
Inductive res (A : Type) :=
  | Ok (a : A)
  | Raise (e : exn).
Arguments Ok {A} a.
Arguments Raise {A} e.

#[global] Instance exn_eq_dec : EqDecision exn.
Proof. solve_decision. Defined.

#[global] Instance res_ret : MRet res := λ A a, Ok a.
#[global] Instance res_bind : MBind res := λ A B f m,
  match m with
  | Ok a => f a
  | Raise e => Raise e
  end.

(** ** Dictionaries

    A Python [dict] keeps its keys in insertion order, and [max] over a
    dictionary walks the keys in that order: the dictionary of word counts
    is an association list. *)
Abbreviation dict := (list (str * nat)).

Definition dict_keys (d : dict) : list str := d.*1.

Fixpoint dict_get (d : dict) (k : str) : option nat :=
  match d with
  | [] => None
  | (k', v) :: d' => if decide (k' = k) then Some v else dict_get d' k
  end.

(** [d[k]] *)
Definition dict_getitem (d : dict) (k : str) : res nat :=
  match dict_get d k with
  | Some v => Ok v
  | None => Raise KeyError
  end.

(** [d[k] = v]: an existing key keeps its place, a new key goes last. *)
Fixpoint dict_setitem (d : dict) (k : str) (v : nat) : dict :=
  match d with
  | [] => [(k, v)]
  | (k', v') :: d' =>
      if decide (k' = k) then (k', v) :: d' else (k', v') :: dict_setitem d' k v
  end.

Fixpoint dict_remove (d : dict) (k : str) : dict :=
  match d with
  | [] => []
  | (k', v) :: d' => if decide (k' = k) then d' else (k', v) :: dict_remove d' k
  end.

(** [del d[k]] *)
Definition dict_delitem (d : dict) (k : str) : res dict :=
  match dict_get d k with
  | Some _ => Ok (dict_remove d k)
  | None => Raise KeyError
  end.

(** [max(iterable, key=key)]: the first item whose key is the greatest;
    [ValueError] on an empty iterable. *)
Fixpoint max_loop {A} (key : A → res nat) (best : A) (best_key : nat)
    (items : list A) : res A :=
  match items with
  | [] => Ok best
  | item :: items' =>
      v ← key item;
      if best_key <? v then max_loop key item v items'
      else max_loop key best best_key items'
  end.

Definition py_max {A} (key : A → res nat) (items : list A) : res A :=
  match items with
  | [] => Raise ValueError
  | item :: items' => v ← key item; max_loop key item v items'
  end.

(** [words.count(word)] *)
Fixpoint list_count (word : str) (words : list str) : nat :=
  match words with
  | [] => 0
  | w :: words' => (if decide (w = word) then 1 else 0) + list_count word words'
  end.

(** ** Listings and responses *)

(** A listing as the API returns it: a JSON object in which the keys
    ['description'] and ['title'] may be missing. *)
Record listing := Listing {
  description : option str;
  title : option str
}.

(** The response of [requests.get]: the status code and the ['results'] of
    the decoded body. The body of an answer is taken to decode to an object
    with a ['results'] list; an answer that does not is outside this
    model. *)
Record response := Response {
  status_code : Z;
  results : list listing
}.

(** One top word with its count, and one entry of the orchestrator's result:
    the shop name with its top words, or with [None]. *)
Abbreviation top_words_t := (list (str * nat)).
Abbreviation shop_entry := (str * option top_words_t)%type.

(** Truth value of [shop_listings] in [if shop_listings:]. *)
Definition truthy (shop_listings : option (list listing)) : bool :=
  match shop_listings with
  | Some (_ :: _) => true
  | _ => false
  end.

(** ** The program *)

Section Program.

(** What the Python runtime and the environment supply: the Unicode table
    behind [str.isalpha], [str.upper] and [str.split], the order in which
    a [set] of words is iterated, the stop words read from [config.json],
    and the network behind [requests.get]. *)
Variable char_isalpha : char → bool.
Variable str_upper : str → str.
Variable str_split : str → list str.
Variable set_iter : list str → list str.
Variable STOP_WORDS : gset str.
Variable World : Type.
Variable requests_get : str → World → res response * World.

(** [word.isalpha()]: every character is alphabetic and there is at least
    one. *)
Definition str_isalpha (word : str) : bool :=
  forallb char_isalpha word && negb (bool_decide (word = [])).

Definition remove_non_alpha (word : str) : str :=
  filter (λ character, char_isalpha character = true) word.

(** Line 109: the stop words are taken out of the cleaned words. *)
Definition remove_stop_words (new_words : list str) : list str :=
  filter (λ word, word ∉ STOP_WORDS) new_words.

(** The loop of [clean_words]. [enumerate(words)] reads entry [n] of the
    list as it is at that moment, and the body writes entry [n] back: the
    caller's list [words] is part of the state. [fuel] bounds the number
    of iterations by the length of the list. *)
Fixpoint clean_words_loop (shop_name : str) (fuel n : nat)
    (words new_words : list str) : list str * list str :=
  match fuel with
  | 0 => (words, new_words)
  | S fuel' =>
      match words !! n with
      | None => (words, new_words)
      | Some word =>
          if negb (str_isalpha word) && bool_decide (word ≠ shop_name) then
            let word := remove_non_alpha word in
            if bool_decide (word ≠ []) then
              clean_words_loop shop_name fuel' (S n) (<[n:=word]> words)
                (new_words ++ [word])
            else
              clean_words_loop shop_name fuel' (S n) (<[n:=word]> words)
                new_words
          else
            clean_words_loop shop_name fuel' (S n) (<[n:=word]> words)
              (new_words ++ [word])
      end
  end.

(** [clean_words] returns the new list; the first component is the
    caller's list [words] as the call leaves it. *)
Definition clean_words (words : list str) (shop_name : str)
    : list str * list str :=
  let '(words, new_words) :=
    clean_words_loop shop_name (length words) 0 words [] in
  (words, remove_stop_words new_words).

(** What one iteration of the loop leaves in [words[n]], and what it
    appends to [new_words]: the closed form of the loop body, used to
    state what the loop computes. *)
Definition stripped (shop_name word : str) : str :=
  if str_isalpha word || bool_decide (word = shop_name) then word
  else remove_non_alpha word.

Definition kept (shop_name word : str) : option str :=
  if str_isalpha word || bool_decide (word = shop_name) then Some word
  else if bool_decide (remove_non_alpha word ≠ []) then
    Some (remove_non_alpha word)
  else None.

(** A missing key raises [KeyError], which the loop passes over. *)
Definition listing_words (field : option str) : list str :=
  match field with
  | Some text => str_split (str_upper text)
  | None => []
  end.

Fixpoint get_descriptions_and_titles (shop_listings : list listing)
    : list str :=
  match shop_listings with
  | [] => []
  | listing :: rest =>
      listing_words (description listing) ++ listing_words (title listing)
        ++ get_descriptions_and_titles rest
  end.

Fixpoint unique_terms_loop (words unique_words : list str)
    (word_counts : dict) : dict :=
  match unique_words with
  | [] => word_counts
  | word :: rest =>
      let count := list_count word words in
      unique_terms_loop words rest (dict_setitem word_counts word count)
  end.

Definition get_unique_terms_counts (words : list str) : dict :=
  let unique_words := set_iter words in
  unique_terms_loop words unique_words [].

(** The loop [for _ in range(n)]: [n] is the number of rounds. *)
Fixpoint top_n_loop (n : nat) (word_counts : dict) (top_words : top_words_t)
    : res top_words_t :=
  match n with
  | 0 => Ok top_words
  | S n' =>
      top_word ← py_max (dict_getitem word_counts) (dict_keys word_counts);
      count ← dict_getitem word_counts top_word;
      word_counts ← dict_delitem word_counts top_word;
      top_n_loop n' word_counts (top_words ++ [(top_word, count)])
  end.

Definition get_top_n_counts (words : list str) (n : nat) : res top_words_t :=
  let word_counts := get_unique_terms_counts words in
  top_n_loop n word_counts [].

(** *** The orchestrator

    [get_shops_and_listings] talks to the network and may raise: its
    steps run in a state-and-exception monad. Besides the [World] that
    [requests.get] acts on, the state records the shops the analysis
    (lines 170 to 173) was started for. *)
Record state := State {
  world : World;
  analysed : list str
}.

Definition M (A : Type) : Type := state → res A * state.

Definition ret {A} (a : A) : M A := λ s, (Ok a, s).

Definition bind {A B} (m : M A) (k : A → M B) : M B := λ s,
  match m s with
  | (Ok a, s') => k a s'
  | (Raise e, s') => (Raise e, s')
  end.

Definition lift {A} (r : res A) : M A := λ s, (r, s).

Definition http_get (shop_name : str) : M response := λ s,
  let '(r, w) := requests_get shop_name (world s) in
  (r, State w (analysed s)).

Definition enter_analysis (shop_name : str) : M unit := λ s,
  (Ok tt, State (world s) (analysed s ++ [shop_name])).

Notation "x ⇐ m ;; k" := (bind m (λ x, k))
  (at level 100, m at next level, right associativity).

Definition get_shop_listings (shop_name : str)
    : M (option (list listing)) :=
  shop ⇐ http_get shop_name ;;
  if bool_decide (status_code shop = 200%Z) then ret (Some (results shop))
  else ret None.

(** The loop of [get_shops_and_listings]. In the branch taken when
    [shop_listings] is true it holds a non-empty list. *)
Fixpoint shops_loop (shop_names : list str) (shops : list shop_entry)
    : M (list shop_entry) :=
  match shop_names with
  | [] => ret shops
  | shop_name :: rest =>
      shop_listings ⇐ get_shop_listings shop_name ;;
      if truthy shop_listings then
        _ ⇐ enter_analysis shop_name ;;
        let shop_words :=
          get_descriptions_and_titles (default [] shop_listings) in
        let shop_words := (clean_words shop_words shop_name).2 in
        top_5_words ⇐ lift (get_top_n_counts shop_words 5) ;;
        shops_loop rest (shops ++ [(shop_name, Some top_5_words)])
      else
        shops_loop rest (shops ++ [(shop_name, None)])
  end.

Definition get_shops_and_listings (shop_names : list str)
    : M (list shop_entry) :=
  shops_loop shop_names [].

End Program.

Arguments State {World} world analysed.
Arguments world {World} s.
Arguments analysed {World} s.

(** ** The runtime on ASCII text

    On code points below 128 Python's [isalpha], [upper] and [split] are
    the functions below; they serve to run the program on concrete ASCII
    input. [last_seen] is one admissible iteration order of a set: each word at
    its last occurrence. *)
Module Ascii7.

Definition between (lo hi c : N) : bool := ((lo <=? c) && (c <=? hi))%N.

Definition isalpha (c : char) : bool := between 65 90 c || between 97 122 c.

Definition upper_char (c : char) : char :=
  if between 97 122 c then (c - 32)%N else c.

Definition upper (s : str) : str := upper_char <$> s.

Definition isspace (c : char) : bool :=
  between 9 13 c || between 28 32 c.

Definition flush (cur : str) : list str :=
  match cur with
  | [] => []
  | _ => [cur]
  end.

Fixpoint split_loop (cur s : str) : list str :=
  match s with
  | [] => flush cur
  | c :: s' =>
      if isspace c then flush cur ++ split_loop [] s'
      else split_loop (cur ++ [c]) s'
  end.

Definition split (s : str) : list str := split_loop [] s.

Definition last_seen (words : list str) : list str := remove_dups words.

(** The code points of an ASCII literal. *)
Definition py (s : String.string) : str :=
  Ascii.N_of_ascii <$> String.list_ascii_of_string s.

Arguments py s%_string.

(** A network that is down, and one that serves a fixed table of shops
    and answers 404 for every other name. *)
Definition offline (shop_name : str) (w : unit) : res response * unit :=
  (Raise ConnectionError, w).

Fixpoint serve (shops : list (str * list listing)) (shop_name : str)
    : response :=
  match shops with
  | [] => Response 404 []
  | (name, listings) :: shops' =>
      if decide (name = shop_name) then Response 200 listings
      else serve shops' shop_name
  end.

Definition online (shops : list (str * list listing)) (shop_name : str)
    (w : unit) : res response * unit :=
  (Ok (serve shops shop_name), w).

(** Sample data: two stop words, a shop with one listing, and a shop
    whose only listing has neither description nor title. *)
Definition stop_words : gset str := {[ py "A"; py "FOR" ]}.

Definition mug_shop : list listing :=
  [Listing (Some (py "A blue mug for coffee mug bird dog dog"))
     (Some (py "Blue Mug"))].

Definition bare_shop : list listing := [Listing None None].

Definition catalogue : list (str * list listing) :=
  [(py "mugs", mug_shop); (py "bare", bare_shop)].

End Ascii7.

(** ** The console

    What the program prints is a list of lines. The functions below run
    above the analysis: besides the exceptions of the analysis they meet
    the [TypeError] of an operation on a value of the wrong type. *)

Definition CANNOT_FIND_SHOP_ERROR_MESSAGE : str :=
  Ascii7.py "Sorry! We can't find ".

Definition RUNNING_ANALYSIS_MESSAGE : str :=
  Ascii7.py "Running Analysis... Depending on your internet connection, this may take a moment.".

Inductive console_exn :=
  | FromAnalysis (e : exn)
  | TypeError.

Inductive console_res (A : Type) :=
  | Done (a : A)
  | Fail (e : console_exn).
Arguments Done {A} a.
Arguments Fail {A} e.

(** Truth value of [shop[1]] in [if shop[1]:], where [shop[1]] is [None]
    or a list of top words. *)
Definition truthy_top_words (top_words : option top_words_t) : bool :=
  match top_words with
  | Some (_ :: _) => true
  | _ => false
  end.

Section Console.

Variable char_isalpha : char → bool.
Variable str_upper : str → str.
Variable str_split : str → list str.
Variable set_iter : list str → list str.
Variable STOP_WORDS : gset str.
Variable World : Type.
Variable requests_get : str → World → res response * World.

(** The text an f-string makes of one [[word, count]] pair. *)
Variable format_word_count : str * nat → str.

(** Iterating over [shop[1]] raises [TypeError] when it is [None]. *)
Definition format_analysis_for_console (shop : shop_entry)
    : console_res str :=
  match shop.2 with
  | Some top_words =>
      Done (fold_left
              (λ words_string word_count,
                 words_string ++ format_word_count word_count)
              top_words [])
  | None => Fail TypeError
  end.

Definition print_shop_analysis_to_console (shop : shop_entry)
    (out : list str) : console_res unit * list str :=
  let shop_name := shop.1 in
  match format_analysis_for_console shop with
  | Done words_string =>
      (Done tt,
       out ++ [Ascii7.py "Top 5 Words for " ++ shop_name ++ Ascii7.py ":"]
           ++ [words_string] ++ [Ascii7.py " "])
  | Fail e => (Fail e, out)
  end.

Definition cannot_find_shop_error (shop_name : str) (out : list str)
    : list str :=
  let error_message := CANNOT_FIND_SHOP_ERROR_MESSAGE ++ shop_name in
  out ++ [error_message].

Fixpoint print_analysis_to_console (shops : list shop_entry)
    (out : list str) : console_res unit * list str :=
  match shops with
  | [] => (Done tt, out)
  | shop :: rest =>
      if truthy_top_words shop.2 then
        match print_shop_analysis_to_console shop out with
        | (Done _, out') => print_analysis_to_console rest out'
        | (Fail e, out') => (Fail e, out')
        end
      else
        print_analysis_to_console rest (cannot_find_shop_error shop.1 out)
  end.

(** [custom_analysis]. When [shops] is empty the function hands the list
    [shop_names] to [cannot_find_shop_error], whose concatenation of a
    string and a list raises [TypeError]. *)
Definition custom_analysis (shop_names : list str) (s : state World)
    (out : list str) : console_res unit * state World * list str :=
  let out := out ++ [RUNNING_ANALYSIS_MESSAGE] in
  match get_shops_and_listings char_isalpha str_upper str_split set_iter
          STOP_WORDS World requests_get shop_names s with
  | (Ok shops, s') =>
      match shops with
      | _ :: _ =>
          let '(r, out') := print_analysis_to_console shops out in
          (r, s', out')
      | [] => (Fail TypeError, s', out)
      end
  | (Raise e, s') => (Fail (FromAnalysis e), s', out)
  end.

Definition default_shop_names : list str :=
  [Ascii7.py "Element83"; Ascii7.py "LDawningScott"; Ascii7.py "PegandAwl";
   Ascii7.py "SinScissorsBoutique"; Ascii7.py "OxAndPine";
   Ascii7.py "volaris"; Ascii7.py "moderntextures";
   Ascii7.py "CarveCraftworks"; Ascii7.py "EbanisteriaCavallaro";
   Ascii7.py "SheetMusicEphemera"].

Definition default_analysis (s : state World) (out : list str)
    : console_res unit * state World * list str :=
  let out := out ++ [RUNNING_ANALYSIS_MESSAGE] in
  let shop_names := default_shop_names in
  match get_shops_and_listings char_isalpha str_upper str_split set_iter
          STOP_WORDS World requests_get shop_names s with
  | (Ok shops, s') =>
      match shops with
      | _ :: _ =>
          match print_analysis_to_console shops out with
          | (Done _, out') =>
              (Done tt, s',
               out' ++ [Ascii7.py "The above are the top 5 terms for 10 different Etsy Shops"])
          | (Fail e, out') => (Fail e, s', out')
          end
      | [] => (Fail TypeError, s', out)
      end
  | (Raise e, s') => (Fail (FromAnalysis e), s', out)
  end.

End Console.

(** The text of a pair on ASCII words: the [repr] of the two-element list,
    as in [['MUG', 3]], for words without quote or backslash. *)
Module Repr.

Definition digit (n : nat) : char := (48 + N.of_nat n)%N.

Fixpoint decimal_loop (fuel n : nat) (acc : str) : str :=
  match fuel with
  | 0 => acc
  | S fuel' =>
      let acc := digit (n mod 10) :: acc in
      if n / 10 =? 0 then acc else decimal_loop fuel' (n / 10) acc
  end.

Definition decimal (n : nat) : str := decimal_loop (S n) n [].

Definition word_count (pair : str * nat) : str :=
  Ascii7.py "['" ++ pair.1 ++ Ascii7.py "', " ++ decimal pair.2
    ++ Ascii7.py "]".

End Repr.

(** What the sample catalogue gives for the shop of mugs. *)
Module Sample.

Import Ascii7.

Definition mug_words : list str :=
  [py "BLUE"; py "MUG"; py "COFFEE"; py "MUG"; py "BIRD"; py "DOG";
   py "DOG"; py "BLUE"; py "MUG"].

Definition mug_top_5 : top_words_t :=
  [(py "MUG", 3); (py "DOG", 2); (py "BLUE", 2); (py "COFFEE", 1);
   (py "BIRD", 1)].

Definition mug_run : list shop_entry :=
  [(py "mugs", Some mug_top_5); (py "nobody", None)].

End Sample.


(** * Properties *)

(** A subsequence whose elements all satisfy [P] survives the filter by
    [P]. *)
Lemma sublist_filter_greatest {A} (P : A → Prop) `{!∀ x, Decision (P x)}
    (k l : list A) :
  sublist k l → Forall P k → sublist k (filter P l).
Proof.
  induction 1 as [|x k l _ IH|x k l _ IH]; intros Hall.
  - done.
  - apply Forall_cons in Hall as [Hx Hall].
    rewrite filter_cons_True by done. apply sublist_skip. auto.
  - destruct (decide (P x)).
    + rewrite filter_cons_True by done. apply sublist_cons. auto.
    + rewrite filter_cons_False by done. auto.
Qed.

Section Cleaning.

Variable char_isalpha : char → bool.
Variable STOP_WORDS : gset str.

Local Abbreviation str_isalpha := (str_isalpha char_isalpha).
Local Abbreviation remove_non_alpha := (remove_non_alpha char_isalpha).
Local Abbreviation remove_stop_words := (remove_stop_words STOP_WORDS).
Local Abbreviation clean_words_loop := (clean_words_loop char_isalpha).
Local Abbreviation clean_words := (clean_words char_isalpha STOP_WORDS).
Local Abbreviation stripped := (stripped char_isalpha).
Local Abbreviation kept := (kept char_isalpha).

(** ** The normaliser *)

Lemma remove_non_alpha_alpha (word : str) :
  Forall (λ c, char_isalpha c = true) (remove_non_alpha word).
Proof.
  apply Forall_forall. intros c Hc.
  by apply list_elem_of_filter in Hc as [Hc _].
Qed.

Lemma remove_non_alpha_fixed (word : str) :
  Forall (λ c, char_isalpha c = true) word → remove_non_alpha word = word.
Proof.
  induction 1 as [|c word Hc _ IH]; [done|].
  unfold remove_non_alpha in *. rewrite filter_cons_True by done.
  by rewrite IH.
Qed.

Lemma remove_non_alpha_elem (c : char) (word : str) :
  c ∈ remove_non_alpha word ↔ c ∈ word ∧ char_isalpha c = true.
Proof. unfold remove_non_alpha. rewrite list_elem_of_filter. tauto. Qed.

(** C5. The normaliser [remove_non_alpha] returns only alphabetic
    characters, which are characters of the token in their original order
    and unchanged; it keeps every alphabetic character of the token, as
    often as it occurs and in its place; it is idempotent, and it maps the
    empty token to the empty token. *)
Theorem remove_non_alpha_normalises (T : str) :
  Forall (λ c, char_isalpha c = true) (remove_non_alpha T)
  ∧ sublist (remove_non_alpha T) T
  ∧ remove_non_alpha (remove_non_alpha T) = remove_non_alpha T
  ∧ remove_non_alpha [] = []
  ∧ (∀ c, c ∈ remove_non_alpha T ↔ c ∈ T ∧ char_isalpha c = true)
  ∧ (∀ alphabetic,
       sublist alphabetic T →
       Forall (λ c, char_isalpha c = true) alphabetic →
       sublist alphabetic (remove_non_alpha T)).
Proof.
  split_and!.
  - apply remove_non_alpha_alpha.
  - apply sublist_filter.
  - apply remove_non_alpha_fixed, remove_non_alpha_alpha.
  - reflexivity.
  - intros c. apply remove_non_alpha_elem.
  - intros alphabetic Hsub Hall. by apply sublist_filter_greatest.
Qed.

(** ** The stop-word filter *)

Lemma remove_stop_words_app (l1 l2 : list str) :
  remove_stop_words (l1 ++ l2)
  = remove_stop_words l1 ++ remove_stop_words l2.
Proof. apply filter_app. Qed.

Lemma remove_stop_words_elem (word : str) (S : list str) :
  word ∈ remove_stop_words S ↔ word ∈ S ∧ word ∉ STOP_WORDS.
Proof. unfold remove_stop_words. rewrite list_elem_of_filter. tauto. Qed.

(** ** The cleaning loop *)

Lemma stripped_kept_step (shop_name word : str) :
  (negb (str_isalpha word) && bool_decide (word ≠ shop_name))
  = negb (str_isalpha word || bool_decide (word = shop_name)).
Proof.
  destruct (str_isalpha word); simpl; [done|].
  by rewrite bool_decide_not.
Qed.

(** From entry [length done_] on, the loop overwrites every entry by its
    stripped form and appends the kept words, in order. *)
Lemma clean_words_loop_spec (shop_name : str) (todo done_ acc : list str) :
  clean_words_loop shop_name (length todo) (length done_) (done_ ++ todo) acc
  = (done_ ++ (stripped shop_name <$> todo),
     acc ++ omap (kept shop_name) todo).
Proof.
  revert done_ acc.
  induction todo as [|word todo IH]; intros done_ acc; simpl.
  { by rewrite !app_nil_r. }
  rewrite list_lookup_middle by done.
  rewrite stripped_kept_step.
  assert (Hins : ∀ w : str,
    <[length done_:=w]> (done_ ++ word :: todo) = (done_ ++ [w]) ++ todo).
  { intros w. rewrite insert_app_r_alt by lia.
    rewrite Nat.sub_diag. simpl. by rewrite <- app_assoc. }
  assert (Hlen : ∀ w : str, S (length done_) = length (done_ ++ [w])).
  { intros w. rewrite length_app. simpl. lia. }
  unfold stripped, kept.
  destruct (str_isalpha word || bool_decide (word = shop_name)); simpl.
  - rewrite Hins, (Hlen word), IH. by rewrite <- !app_assoc.
  - destruct (bool_decide (remove_non_alpha word ≠ [])).
    + rewrite Hins, (Hlen (remove_non_alpha word)), IH.
      by rewrite <- !app_assoc.
    + rewrite Hins, (Hlen (remove_non_alpha word)), IH.
      by rewrite <- !app_assoc.
Qed.

Lemma clean_words_spec (words : list str) (shop_name : str) :
  clean_words words shop_name
  = (stripped shop_name <$> words,
     remove_stop_words (omap (kept shop_name) words)).
Proof.
  unfold clean_words.
  pose proof (clean_words_loop_spec shop_name words [] []) as Hloop.
  simpl in Hloop. by rewrite Hloop.
Qed.

Lemma kept_shop_name (shop_name : str) :
  kept shop_name shop_name = Some shop_name.
Proof.
  unfold kept. rewrite (bool_decide_eq_true_2 (shop_name = shop_name)) by done.
  by rewrite orb_true_r.
Qed.

(** C8. A token equal to the shop's name is not alpha-stripped: where
    it stands in the token list, [clean_words] puts the token itself,
    between the cleaned words before it and those after it, unless it is
    a stop word, in which case it puts nothing there. *)
Theorem clean_words_shop_name (before after : list str) (shop_name : str) :
  (clean_words (before ++ shop_name :: after) shop_name).2
  = (clean_words before shop_name).2
    ++ (if decide (shop_name ∈ STOP_WORDS) then [] else [shop_name])
    ++ (clean_words after shop_name).2.
Proof.
  rewrite !clean_words_spec. cbn [snd].
  assert (Hsplit : omap (kept shop_name) (before ++ shop_name :: after)
    = omap (kept shop_name) before
      ++ [shop_name] ++ omap (kept shop_name) after).
  { rewrite omap_app. f_equal. simpl. by rewrite kept_shop_name. }
  rewrite Hsplit, !remove_stop_words_app. do 2 f_equal.
  unfold remove_stop_words.
  destruct (decide (shop_name ∈ STOP_WORDS)) as [Hin|Hout].
  - by rewrite filter_cons_False by (intros H; by apply H).
  - by rewrite filter_cons_True by done.
Qed.

(** C3, as the code has it. [clean_words] writes to the caller's list:
    it keeps the length, overwrites a token that is neither fully
    alphabetic nor the shop's name by its alpha-stripped form, and leaves
    every other token as it is. *)
Theorem clean_words_overwrites_words (words : list str) (shop_name : str) :
  length (clean_words words shop_name).1 = length words
  ∧ (clean_words words shop_name).1
    = (λ word, if str_isalpha word || bool_decide (word = shop_name)
               then word else remove_non_alpha word) <$> words.
Proof.
  rewrite clean_words_spec. cbn [fst]. split; [apply length_fmap|done].
Qed.

(** A list of tokens that are fully alphabetic or equal to the shop's name
    comes back as it went in. *)
Lemma clean_words_alpha_unchanged (words : list str) (shop_name : str) :
  Forall (λ word, str_isalpha word = true ∨ word = shop_name) words →
  (clean_words words shop_name).1 = words.
Proof.
  intros Hall. rewrite clean_words_spec. cbn [fst].
  induction Hall as [|word words Hword _ IH]; [done|].
  rewrite fmap_cons, IH. f_equal. unfold stripped.
  destruct Hword as [->| ->]; [done|].
  rewrite (bool_decide_eq_true_2 (shop_name = shop_name)) by done.
  by rewrite orb_true_r.
Qed.

End Cleaning.

(** C6. On a sequence of tokens, each its own upper-cased form as the
    extraction makes them, every token of the stop-word filter's output
    has an upper-cased form outside the stop-word set; the output is a
    subsequence of the input in the input's order, and holds every
    subsequence of tokens whose upper-cased forms are outside the set;
    with an empty stop-word set the input comes back unchanged. *)
Theorem remove_stop_words_filters (str_upper : str → str) (W : gset str)
    (S : list str) :
  Forall (λ token, str_upper token = token) S →
  Forall (λ token, str_upper token ∉ W) (remove_stop_words W S)
  ∧ sublist (remove_stop_words W S) S
  ∧ (∀ kept,
       sublist kept S →
       Forall (λ token, str_upper token ∉ W) kept →
       sublist kept (remove_stop_words W S))
  ∧ remove_stop_words ∅ S = S.
Proof.
  intros Htokens. rewrite Forall_forall in Htokens. split_and!.
  - apply Forall_forall. intros token Htoken.
    apply remove_stop_words_elem in Htoken as [Hin Hout].
    by rewrite Htokens.
  - apply sublist_filter.
  - intros kept Hsub Hkept. apply sublist_filter_greatest; [done|].
    apply Forall_forall. intros token Htoken.
    rewrite Forall_forall in Hkept. specialize (Hkept token Htoken).
    rewrite Htokens in Hkept; [done|].
    eapply sublist_submseteq, elem_of_submseteq in Hsub; done.
  - unfold remove_stop_words. induction S as [|token S IH]; [done|].
    rewrite filter_cons_True by set_solver. rewrite IH; [done|].
    intros t Ht. apply Htokens. by apply list_elem_of_further.
Qed.

Lemma remove_stop_words_filters_run :
  Forall (λ token, Ascii7.upper token = token)
    [Ascii7.py "BLUE"; Ascii7.py "A"; Ascii7.py "MUG"]
  ∧ Forall (λ token, Ascii7.upper token ∉ Ascii7.stop_words)
      (remove_stop_words Ascii7.stop_words
         [Ascii7.py "BLUE"; Ascii7.py "A"; Ascii7.py "MUG"])
  ∧ remove_stop_words ∅ [Ascii7.py "BLUE"; Ascii7.py "A"; Ascii7.py "MUG"]
    = [Ascii7.py "BLUE"; Ascii7.py "A"; Ascii7.py "MUG"].
Proof.
  assert (Htokens : Forall (λ token, Ascii7.upper token = token)
            [Ascii7.py "BLUE"; Ascii7.py "A"; Ascii7.py "MUG"])
    by (repeat constructor).
  split; [exact Htokens|].
  destruct (remove_stop_words_filters Ascii7.upper Ascii7.stop_words
              [Ascii7.py "BLUE"; Ascii7.py "A"; Ascii7.py "MUG"] Htokens)
    as (Hupper & _ & _ & Hempty).
  split; [exact Hupper|exact Hempty].
Defined.

(** The hypothesis on the tokens is needed: the filter does no
    upper-casing of its own, so the lower-case word [the], which the
    extraction never produces, passes it although [THE] is a stop word. *)
Lemma remove_stop_words_ignores_case :
  ¬ Forall (λ token, Ascii7.upper token ∉ ({[ Ascii7.py "THE" ]} : gset str))
      (remove_stop_words {[ Ascii7.py "THE" ]} [Ascii7.py "the"]).
Proof.
  intros Hall. apply Forall_forall with (x := Ascii7.py "the") in Hall.
  - apply Hall. vm_compute. set_solver.
  - apply remove_stop_words_elem. split; [set_solver|].
    intros Hin. apply elem_of_singleton in Hin. discriminate Hin.
Qed.

(** C3, as the specification states it, fails: after cleaning the one-token list
    [MU9G] the caller's list holds [MUG]. *)
Lemma clean_words_changes_caller_list :
  (clean_words Ascii7.isalpha ∅ [Ascii7.py "MU9G"] (Ascii7.py "shop")).1
  ≠ [Ascii7.py "MU9G"].
Proof. vm_compute. discriminate. Qed.

(** ** Dictionaries *)

Section Dict.

Implicit Types (d : dict) (k : str) (v : nat).

Lemma dict_get_elem d k v : dict_get d k = Some v → (k, v) ∈ d.
Proof.
  induction d as [|[k' v'] d IH]; simpl; [done|].
  case_decide as Hk.
  - intros [= ->]. subst. apply list_elem_of_here.
  - intros Hget. apply list_elem_of_further. auto.
Qed.

Lemma dict_get_key d k : k ∈ dict_keys d → is_Some (dict_get d k).
Proof.
  induction d as [|[k' v'] d IH]; simpl.
  - intros Hin. by apply elem_of_nil in Hin.
  - intros Hin. case_decide as Hk; [by eexists|].
    apply elem_of_cons in Hin as [Heq|Hin]; [by subst|auto].
Qed.

Lemma dict_get_unique d k v :
  NoDup (dict_keys d) → (k, v) ∈ d → dict_get d k = Some v.
Proof.
  induction d as [|[k' v'] d IH]; simpl.
  - intros _ Hin. by apply elem_of_nil in Hin.
  - intros [Hfresh Hnodup]%NoDup_cons Hin.
    apply elem_of_cons in Hin as [[= -> ->]|Hin].
    + by rewrite decide_True.
    + rewrite decide_False; [auto|].
      intros ->. apply Hfresh.
      change k with (k, v).1. by apply list_elem_of_fmap_2.
Qed.

Lemma dict_remove_perm d k v :
  dict_get d k = Some v → d ≡ₚ (k, v) :: dict_remove d k.
Proof.
  induction d as [|[k' v'] d IH]; simpl; [done|].
  case_decide as Hk.
  - intros [= ->]. by subst.
  - intros Hget. rewrite (IH Hget) at 1. apply Permutation_swap.
Qed.

Lemma dict_setitem_new d k v :
  k ∉ dict_keys d → dict_setitem d k v = d ++ [(k, v)].
Proof.
  induction d as [|[k' v'] d IH]; simpl; [done|].
  intros Hfresh. apply not_elem_of_cons in Hfresh as [Hne Hfresh].
  rewrite decide_False by done. by rewrite IH.
Qed.

Lemma dict_getitem_key d k :
  k ∈ dict_keys d → ∃ v, dict_getitem d k = Ok v ∧ dict_get d k = Some v.
Proof.
  intros [v Hv]%dict_get_key. exists v. unfold dict_getitem. by rewrite Hv.
Qed.

End Dict.

(** ** [max] *)

Section Max.

Context {A : Type} (key : A → res nat).

(** When [key] raises on no item, [max_loop] returns the running best or
    an item of the list, and its key is the greatest. *)
Lemma max_loop_greatest (items : list A) (best : A) (best_key : nat) :
  key best = Ok best_key →
  (∀ item, item ∈ items → ∃ v, key item = Ok v) →
  ∃ top top_key,
    max_loop key best best_key items = Ok top
    ∧ key top = Ok top_key
    ∧ (top = best ∨ top ∈ items)
    ∧ best_key ≤ top_key
    ∧ ∀ item v, item ∈ items → key item = Ok v → v ≤ top_key.
Proof.
  revert best best_key.
  induction items as [|item items IH]; intros best best_key Hbest Hkeys.
  { exists best, best_key. split_and!; auto.
    intros item v Hin. by apply elem_of_nil in Hin. }
  destruct (Hkeys item) as [v Hv]; [apply list_elem_of_here|].
  simpl. rewrite Hv. simpl.
  assert (Hrest : ∀ x, x ∈ items → ∃ w, key x = Ok w).
  { intros x Hx. apply Hkeys. by apply list_elem_of_further. }
  destruct (best_key <? v) eqn:Hlt.
  - apply Nat.ltb_lt in Hlt.
    destruct (IH item v Hv Hrest) as (top & top_key & -> & Htop & Hmem & Hle & Hmax).
    exists top, top_key. split_and!; auto.
    + destruct Hmem as [->|Hin]; right;
        [apply list_elem_of_here|by apply list_elem_of_further].
    + lia.
    + intros x w [->|Hx]%elem_of_cons Hw; [|eauto].
      rewrite Hv in Hw. injection Hw as <-. done.
  - apply Nat.ltb_ge in Hlt.
    destruct (IH best best_key Hbest Hrest) as (top & top_key & -> & Htop & Hmem & Hle & Hmax).
    exists top, top_key. split_and!; auto.
    + destruct Hmem as [->|Hin]; [by left|].
      right. by apply list_elem_of_further.
    + intros x w [->|Hx]%elem_of_cons Hw; [|eauto].
      rewrite Hv in Hw. injection Hw as <-. lia.
Qed.

Lemma py_max_greatest (items : list A) :
  items ≠ [] →
  (∀ item, item ∈ items → ∃ v, key item = Ok v) →
  ∃ top top_key,
    py_max key items = Ok top
    ∧ key top = Ok top_key
    ∧ top ∈ items
    ∧ ∀ item v, item ∈ items → key item = Ok v → v ≤ top_key.
Proof.
  destruct items as [|item items]; [done|]. intros _ Hkeys.
  destruct (Hkeys item) as [v Hv]; [apply list_elem_of_here|].
  simpl. rewrite Hv. simpl.
  destruct (max_loop_greatest items item v Hv) as
    (top & top_key & -> & Htop & Hmem & Hle & Hmax).
  { intros x Hx. apply Hkeys. by apply list_elem_of_further. }
  exists top, top_key. split_and!; auto.
  - destruct Hmem as [->|Hin];
      [apply list_elem_of_here|by apply list_elem_of_further].
  - intros x w [->|Hx]%elem_of_cons Hw; [|eauto].
    rewrite Hv in Hw. injection Hw as <-. done.
Qed.

End Max.

(** ** The frequency counter *)

Lemma list_count_pos (word : str) (words : list str) :
  word ∈ words → 1 ≤ list_count word words.
Proof.
  induction words as [|w words IH]; simpl.
  - intros Hin. by apply elem_of_nil in Hin.
  - intros [->|Hin]%elem_of_cons; [rewrite decide_True by done; lia|].
    specialize (IH Hin). lia.
Qed.

Lemma list_count_cons_sum (w : str) (words keys : list str) :
  NoDup keys →
  sum_list ((λ key, list_count key (w :: words)) <$> keys)
  = (if decide (w ∈ keys) then 1 else 0)
    + sum_list ((λ key, list_count key words) <$> keys).
Proof.
  induction 1 as [|key keys Hfresh Hnodup IH].
  { rewrite decide_False by apply not_elem_of_nil. done. }
  rewrite !fmap_cons. cbn [sum_list sum_list_with]. rewrite IH.
  cbn [list_count id].
  destruct (decide (w = key)) as [->|Hne].
  - rewrite (decide_True (P := key ∈ key :: keys)) by apply list_elem_of_here.
    rewrite (decide_False (P := key ∈ keys)) by done. lia.
  - destruct (decide (w ∈ keys)) as [Hin|Hout].
    + rewrite (decide_True (P := w ∈ key :: keys))
        by (by apply list_elem_of_further).
      lia.
    + rewrite (decide_False (P := w ∈ key :: keys)); [lia|].
      by intros [?|?]%elem_of_cons.
Qed.

(** Over keys without repetition that cover the words, the counts add up to
    the number of words. *)
Lemma list_count_sum (keys words : list str) :
  NoDup keys →
  (∀ word, word ∈ words → word ∈ keys) →
  sum_list ((λ key, list_count key words) <$> keys) = length words.
Proof.
  intros Hnodup. induction words as [|w words IH]; intros Hcover.
  { clear. simpl. induction keys as [|key keys IHk]; [done|]. apply IHk. }
  rewrite list_count_cons_sum by done.
  rewrite decide_True by apply Hcover, list_elem_of_here.
  rewrite IH; [done|].
  intros x Hx. apply Hcover. by apply list_elem_of_further.
Qed.

Section Counting.

Variable set_iter : list str → list str.

(** Iterating over [set(words)] yields every distinct word once, in some
    order. *)
Hypothesis set_iter_distinct : ∀ words, set_iter words ≡ₚ remove_dups words.

Local Abbreviation get_unique_terms_counts :=
  (get_unique_terms_counts set_iter).
Local Abbreviation get_top_n_counts := (get_top_n_counts set_iter).

Lemma set_iter_NoDup (words : list str) : NoDup (set_iter words).
Proof. rewrite set_iter_distinct. apply NoDup_remove_dups. Qed.

Lemma set_iter_elem (word : str) (words : list str) :
  word ∈ set_iter words ↔ word ∈ words.
Proof. rewrite set_iter_distinct. apply elem_of_remove_dups. Qed.

Lemma unique_terms_loop_spec (words unique_words : list str) (d : dict) :
  NoDup unique_words →
  (∀ word, word ∈ unique_words → word ∉ dict_keys d) →
  unique_terms_loop words unique_words d
  = d ++ ((λ word, (word, list_count word words)) <$> unique_words).
Proof.
  revert d. induction unique_words as [|word rest IH]; intros d Hnodup Hfresh.
  { simpl. by rewrite app_nil_r. }
  apply NoDup_cons in Hnodup as [Hword Hnodup]. simpl.
  rewrite dict_setitem_new by (apply Hfresh, list_elem_of_here).
  rewrite IH; [by rewrite <- app_assoc|done|].
  intros w Hw. unfold dict_keys. rewrite fmap_app. simpl.
  intros [Hin|Hin]%elem_of_app.
  - revert Hin. apply Hfresh. by apply list_elem_of_further.
  - apply list_elem_of_singleton in Hin. by subst.
Qed.

Lemma get_unique_terms_counts_spec (words : list str) :
  get_unique_terms_counts words
  = (λ word, (word, list_count word words)) <$> set_iter words.
Proof.
  unfold get_unique_terms_counts.
  rewrite unique_terms_loop_spec; [done|apply set_iter_NoDup|].
  intros word _ Hin. by apply elem_of_nil in Hin.
Qed.

Lemma get_unique_terms_counts_keys (words : list str) :
  dict_keys (get_unique_terms_counts words) = set_iter words.
Proof.
  rewrite get_unique_terms_counts_spec. unfold dict_keys.
  rewrite <- list_fmap_compose. apply list_fmap_id.
Qed.

(** Counting is exact. *)
Lemma get_unique_terms_counts_exact (words : list str) (word : str) (c : nat) :
  (word, c) ∈ get_unique_terms_counts words →
  word ∈ words ∧ c = list_count word words.
Proof.
  rewrite get_unique_terms_counts_spec.
  intros (w & [= -> ->] & Hw)%list_elem_of_fmap.
  split; [by apply set_iter_elem|done].
Qed.

Lemma get_unique_terms_counts_nil : get_unique_terms_counts [] = [].
Proof.
  rewrite get_unique_terms_counts_spec.
  assert (Hnil : set_iter [] = []).
  { apply Permutation_nil_r. by rewrite set_iter_distinct. }
  by rewrite Hnil.
Qed.

(** C7. In the mapping [get_unique_terms_counts] returns no key is
    repeated and the keys are the tokens of the sequence, the counts add
    up to the length of the sequence, and the empty sequence gives the
    empty mapping. *)
Theorem get_unique_terms_counts_counts (S : list str) :
  NoDup (dict_keys (get_unique_terms_counts S))
  ∧ (∀ token, token ∈ dict_keys (get_unique_terms_counts S) ↔ token ∈ S)
  ∧ sum_list (get_unique_terms_counts S).*2 = length S
  ∧ get_unique_terms_counts [] = [].
Proof.
  split_and!.
  - rewrite get_unique_terms_counts_keys. apply set_iter_NoDup.
  - intros token. rewrite get_unique_terms_counts_keys. apply set_iter_elem.
  - rewrite get_unique_terms_counts_spec, <- list_fmap_compose.
    apply list_count_sum; [apply set_iter_NoDup|].
    intros word. apply set_iter_elem.
  - apply get_unique_terms_counts_nil.
Qed.

End Counting.

(** ** The top-N selector *)

Section Selecting.

Implicit Types (d : dict) (acc r : top_words_t).

(** One round of the loop on a non-empty dictionary: a key of greatest
    count moves from the dictionary to the end of [top_words]. *)
Lemma top_n_loop_step d :
  d ≠ [] →
  ∃ k v,
    dict_get d k = Some v
    ∧ (∀ k' v', dict_get d k' = Some v' → v' ≤ v)
    ∧ ∀ n acc,
        top_n_loop (S n) d acc
        = top_n_loop n (dict_remove d k) (acc ++ [(k, v)]).
Proof.
  intros Hd.
  destruct (py_max_greatest (dict_getitem d) (dict_keys d)) as
    (k & v & Hmax & Hk & Hin & Hgreatest).
  { destruct d; [done|discriminate]. }
  { intros k Hk. apply dict_getitem_key in Hk as (v & Hv & _). eauto. }
  assert (Hget : dict_get d k = Some v).
  { apply dict_getitem_key in Hin as (v' & Hv' & Hget). congruence. }
  exists k, v. split_and!; [done| |].
  - intros k' v' Hget'. apply (Hgreatest k').
    + change k' with (k', v').1. apply list_elem_of_fmap_2.
      by apply dict_get_elem.
    + unfold dict_getitem. by rewrite Hget'.
  - intros n acc. simpl. rewrite Hmax. simpl. rewrite Hk. simpl.
    unfold dict_delitem. rewrite Hget. done.
Qed.

Lemma dict_remove_length d k v :
  dict_get d k = Some v → length d = S (length (dict_remove d k)).
Proof.
  intros Hget. by rewrite (Permutation_length (dict_remove_perm d k v Hget)).
Qed.

Lemma dict_remove_NoDup d k v :
  dict_get d k = Some v →
  NoDup (dict_keys d) → NoDup (dict_keys (dict_remove d k)).
Proof.
  intros Hget Hnodup. unfold dict_keys in *.
  rewrite (dict_remove_perm d k v Hget) in Hnodup.
  rewrite fmap_cons in Hnodup. by apply NoDup_cons in Hnodup as [_ ?].
Qed.

(** With fewer keys than rounds, [max] meets the empty dictionary. *)
Lemma top_n_loop_underflow n d acc :
  length d < n → top_n_loop n d acc = Raise ValueError.
Proof.
  revert d acc. induction n as [|n IH]; intros d acc Hlen; [lia|].
  destruct d as [|entry d]; [done|].
  destruct (top_n_loop_step (entry :: d)) as (k & v & Hget & _ & ->); [done|].
  apply IH. apply dict_remove_length in Hget. simpl in *. lia.
Qed.

(** With enough keys, the loop appends [n] entries of the dictionary, the
    counts never going up. *)
Lemma top_n_loop_enough n d acc :
  n ≤ length d →
  NoDup (dict_keys d) →
  ∃ r,
    top_n_loop n d acc = Ok (acc ++ r)
    ∧ length r = n
    ∧ r ⊆+ d
    ∧ StronglySorted (λ a b, b.2 ≤ a.2) r.
Proof.
  revert d acc. induction n as [|n IH]; intros d acc Hlen Hnodup.
  { exists []. rewrite app_nil_r. split_and!; try done.
    - apply submseteq_nil_l.
    - constructor. }
  destruct (top_n_loop_step d) as (k & v & Hget & Hgreatest & ->).
  { intros ->. simpl in Hlen. lia. }
  pose proof (dict_remove_perm d k v Hget) as Hperm.
  destruct (IH (dict_remove d k) (acc ++ [(k, v)])) as
    (r & -> & Hr & Hsub & Hsorted).
  { apply dict_remove_length in Hget. lia. }
  { by eapply dict_remove_NoDup. }
  exists ((k, v) :: r). split_and!.
  - by rewrite <- app_assoc.
  - simpl. by rewrite Hr.
  - rewrite Hperm. by apply submseteq_skip.
  - constructor; [done|]. apply Forall_forall. intros [k' v'] Hin. simpl.
    apply Hgreatest with k'. apply dict_get_unique; [done|].
    rewrite Hperm. apply list_elem_of_further.
    by eapply elem_of_submseteq.
Qed.

End Selecting.

Section TopN.

Variable set_iter : list str → list str.
Hypothesis set_iter_distinct : ∀ words, set_iter words ≡ₚ remove_dups words.

Local Abbreviation get_unique_terms_counts :=
  (get_unique_terms_counts set_iter).
Local Abbreviation get_top_n_counts := (get_top_n_counts set_iter).

Lemma word_counts_length (words : list str) :
  length (get_unique_terms_counts words) = length (remove_dups words).
Proof.
  rewrite get_unique_terms_counts_spec by done.
  by rewrite length_fmap, set_iter_distinct.
Qed.

Lemma word_counts_NoDup (words : list str) :
  NoDup (dict_keys (get_unique_terms_counts words)).
Proof.
  rewrite get_unique_terms_counts_keys by done. by apply set_iter_NoDup.
Qed.

(** Asked for more words than there are distinct ones, the selector
    raises. *)
Lemma get_top_n_counts_short (words : list str) (n : nat) :
  length (remove_dups words) < n →
  get_top_n_counts words n = Raise ValueError.
Proof.
  intros Hlen. apply top_n_loop_underflow. by rewrite word_counts_length.
Qed.

(** Asked for no more words than there are distinct ones, the selector
    returns [n] entries of the mapping, the counts never going up. *)
Lemma get_top_n_counts_enough (words : list str) (n : nat) :
  n ≤ length (remove_dups words) →
  ∃ top_words,
    get_top_n_counts words n = Ok top_words
    ∧ length top_words = n
    ∧ top_words ⊆+ get_unique_terms_counts words
    ∧ StronglySorted (λ a b, b.2 ≤ a.2) top_words.
Proof.
  intros Hlen.
  destruct (top_n_loop_enough n (get_unique_terms_counts words) [])
    as (r & Hr & Hrest).
  - by rewrite word_counts_length.
  - apply word_counts_NoDup.
  - exists r. by split.
Qed.

(** Whatever the selector returns has these properties. *)
Lemma get_top_n_counts_returned (words : list str) (n : nat)
    (top_words : top_words_t) :
  get_top_n_counts words n = Ok top_words →
  length top_words = n
  ∧ n ≤ length (remove_dups words)
  ∧ top_words ⊆+ get_unique_terms_counts words
  ∧ StronglySorted (λ a b, b.2 ≤ a.2) top_words.
Proof.
  intros Hok. destruct (decide (n ≤ length (remove_dups words))) as [Hle|Hgt].
  - destruct (get_top_n_counts_enough words n Hle) as (r & Hr & Hprops).
    rewrite Hr in Hok. injection Hok as <-. tauto.
  - rewrite get_top_n_counts_short in Hok by lia. discriminate.
Qed.

(** The part of C1 the code satisfies: with at least [N] distinct tokens
    the selector returns [N] pairs, the counts never going up, each count
    the frequency of its token in the input. *)
Lemma get_top_n_counts_top (words : list str) (N : nat) :
  N ≤ length (remove_dups words) →
  ∃ top_words,
    get_top_n_counts words N = Ok top_words
    ∧ length top_words = N
    ∧ StronglySorted (λ a b, b.2 ≤ a.2) top_words
    ∧ Forall (λ pair, pair.1 ∈ words ∧ pair.2 = list_count pair.1 words)
        top_words.
Proof.
  intros Hlen.
  destruct (get_top_n_counts_enough words N Hlen) as
    (r & Hr & Hn & Hsub & Hsorted).
  exists r. split_and!; try done.
  apply Forall_forall. intros [word c] Hin. simpl.
  eapply get_unique_terms_counts_exact; [done|].
  by eapply elem_of_submseteq.
Qed.

(** C1, where the code breaks it: with fewer than [N] distinct tokens
    [get_top_n_counts] does not return a shorter sequence, it raises
    [ValueError] out of [max] on the emptied mapping. *)
Theorem get_top_n_counts_underflow_raises (words : list str) (N : nat) :
  length (remove_dups words) < N →
  get_top_n_counts words N = Raise ValueError.
Proof. apply get_top_n_counts_short. Qed.

(** C9. In every sequence [get_top_n_counts] returns, no token appears in
    two pairs and every count is at least 1. *)
Theorem get_top_n_counts_result_invariant (words : list str) (n : nat)
    (top_words : top_words_t) :
  get_top_n_counts words n = Ok top_words →
  NoDup top_words.*1 ∧ Forall (λ pair, 1 ≤ pair.2) top_words.
Proof.
  intros (_ & _ & Hsub & _)%get_top_n_counts_returned. split.
  - assert (Hkeys : top_words.*1 ⊆+ dict_keys (get_unique_terms_counts words))
      by (by apply fmap_submseteq).
    apply submseteq_Permutation in Hkeys as [rest Hperm].
    pose proof (word_counts_NoDup words) as Hnodup.
    rewrite Hperm in Hnodup. by apply NoDup_app in Hnodup as [? _].
  - apply Forall_forall. intros [word c] Hin. simpl.
    assert (Hd : (word, c) ∈ get_unique_terms_counts words)
      by (by eapply elem_of_submseteq).
    apply get_unique_terms_counts_exact in Hd as [Hword ->]; [|done].
    by apply list_count_pos.
Qed.

End TopN.

(** ** The orchestrator *)

Section Orchestrator.

Variable char_isalpha : char → bool.
Variable str_upper : str → str.
Variable str_split : str → list str.
Variable set_iter : list str → list str.
Variable STOP_WORDS : gset str.
Variable World : Type.
Variable requests_get : str → World → res response * World.

Local Abbreviation clean_words := (clean_words char_isalpha STOP_WORDS).
Local Abbreviation get_descriptions_and_titles :=
  (get_descriptions_and_titles str_upper str_split).
Local Abbreviation get_top_n_counts := (get_top_n_counts set_iter).
Local Abbreviation get_shop_listings :=
  (get_shop_listings World requests_get).
Local Abbreviation shops_loop :=
  (shops_loop char_isalpha str_upper str_split set_iter STOP_WORDS
     World requests_get).
Local Abbreviation get_shops_and_listings :=
  (get_shops_and_listings char_isalpha str_upper str_split set_iter
     STOP_WORDS World requests_get).

(** Iterating over [set(words)] yields every distinct word once, in some
    order. *)
Hypothesis set_iter_distinct : ∀ words, set_iter words ≡ₚ remove_dups words.

Implicit Types (s : state World) (shops : list shop_entry).

(** What [get_shop_listings] makes of the answer of the network. *)
Lemma get_shop_listings_run (shop_name : str) s (r : res response)
    (w : World) :
  requests_get shop_name (world s) = (r, w) →
  get_shop_listings shop_name s
  = (match r with
     | Ok shop =>
         Ok (if bool_decide (status_code shop = 200%Z)
             then Some (results shop) else None)
     | Raise e => Raise e
     end, State w (analysed s)).
Proof.
  intros Hget. unfold get_shop_listings, bind, http_get. rewrite Hget.
  destruct r as [shop|e]; [|done].
  by destruct (bool_decide (status_code shop = 200%Z)).
Qed.

(** One round of the loop, by what [get_shop_listings] gave. *)
Lemma shops_loop_not_found (shop_name : str) (rest : list str) shops s s'
    (shop_listings : option (list listing)) :
  get_shop_listings shop_name s = (Ok shop_listings, s') →
  truthy shop_listings = false →
  shops_loop (shop_name :: rest) shops s
  = shops_loop rest (shops ++ [(shop_name, None)]) s'.
Proof.
  intros Hget Hfalsy. simpl. unfold bind at 1. rewrite Hget.
  by rewrite Hfalsy.
Qed.

Lemma shops_loop_found (shop_name : str) (rest : list str) shops s s'
    (shop_listings : option (list listing)) :
  get_shop_listings shop_name s = (Ok shop_listings, s') →
  truthy shop_listings = true →
  shops_loop (shop_name :: rest) shops s
  = let shop_words :=
      (clean_words
         (get_descriptions_and_titles (default [] shop_listings))
         shop_name).2 in
    let entered := State (world s') (analysed s' ++ [shop_name]) in
    match get_top_n_counts shop_words 5 with
    | Ok top_5_words =>
        shops_loop rest (shops ++ [(shop_name, Some top_5_words)]) entered
    | Raise e => (Raise e, entered)
    end.
Proof.
  intros Hget Htruthy. simpl. unfold bind at 1. rewrite Hget.
  rewrite Htruthy. unfold bind, enter_analysis, lift. simpl.
  by destruct (get_top_n_counts _ 5).
Qed.

Lemma shops_loop_raised (shop_name : str) (rest : list str) shops s s'
    (e : exn) :
  get_shop_listings shop_name s = (Raise e, s') →
  shops_loop (shop_name :: rest) shops s = (Raise e, s').
Proof. intros Hget. simpl. unfold bind at 1. by rewrite Hget. Qed.

(** When the loop returns, it has appended one entry per name, in the
    order of the names. *)
Lemma shops_loop_returned (shop_names : list str) shops s
    (result : list shop_entry) s' :
  shops_loop shop_names shops s = (Ok result, s') →
  ∃ entries, result = shops ++ entries ∧ entries.*1 = shop_names.
Proof.
  revert shops s.
  induction shop_names as [|shop_name rest IH]; intros shops s Hrun.
  { injection Hrun as <- _. exists []. by rewrite app_nil_r. }
  destruct (get_shop_listings shop_name s) as [[shop_listings|e] s1] eqn:Hget.
  - destruct (truthy shop_listings) eqn:Htruthy.
    + rewrite (shops_loop_found _ _ _ _ _ _ Hget Htruthy) in Hrun.
      cbv zeta in Hrun.
      destruct (get_top_n_counts _ 5) as [top_5_words|e]; [|discriminate].
      apply IH in Hrun as (entries & -> & Hnames).
      exists ((shop_name, Some top_5_words) :: entries).
      rewrite <- app_assoc. split; [done|]. by rewrite fmap_cons, Hnames.
    + rewrite (shops_loop_not_found _ _ _ _ _ _ Hget Htruthy) in Hrun.
      apply IH in Hrun as (entries & -> & Hnames).
      exists ((shop_name, None) :: entries).
      rewrite <- app_assoc. split; [done|]. by rewrite fmap_cons, Hnames.
  - rewrite (shops_loop_raised _ _ _ _ _ _ Hget) in Hrun. discriminate.
Qed.

(** Entries already collected stay in front of the result, whatever the
    loop does next. *)
Lemma shops_loop_accumulates (shop_names : list str) shops0 shops s :
  shops_loop shop_names (shops0 ++ shops) s
  = match shops_loop shop_names shops s with
    | (Ok result, s') => (Ok (shops0 ++ result), s')
    | (Raise e, s') => (Raise e, s')
    end.
Proof.
  revert shops s. induction shop_names as [|shop_name rest IH]; intros shops s.
  { done. }
  destruct (get_shop_listings shop_name s) as [[shop_listings|e] s1] eqn:Hget.
  - destruct (truthy shop_listings) eqn:Htruthy.
    + rewrite !(shops_loop_found _ _ _ _ _ _ Hget Htruthy).
      cbv zeta. destruct (get_top_n_counts _ 5) as [top_5_words|e]; [|done].
      rewrite <- app_assoc. apply IH.
    + rewrite !(shops_loop_not_found _ _ _ _ _ _ Hget Htruthy).
      rewrite <- app_assoc. apply IH.
  - by rewrite !(shops_loop_raised _ _ _ _ _ _ Hget).
Qed.

(** The loop with entries in hand, by the run on the remaining names. *)
Lemma shops_loop_continues (shop_names : list str) shops s :
  shops_loop shop_names shops s
  = match get_shops_and_listings shop_names s with
    | (Ok entries, s') => (Ok (shops ++ entries), s')
    | (Raise e, s') => (Raise e, s')
    end.
Proof.
  rewrite <- (app_nil_r shops) at 1. apply shops_loop_accumulates.
Qed.

(** C4. When the listing source answers with a status other than 200 or
    with no listing, the orchestrator does not enter the analysis for that
    shop (the record of analysed shops stays as it is) and records the
    shop's name with [None]: as the last name, the run returns the entries
    collected so far followed by that pair; before further names, the run
    goes on with them from the state the request left, and returns the
    entries collected so far, that pair, and the entries of the remaining
    names, or raises what the run on the remaining names raises. *)
Theorem not_found_shop_is_marked (shop_name : str) (rest : list str) shops s
    (shop : response) (w : World) :
  requests_get shop_name (world s) = (Ok shop, w) →
  status_code shop ≠ 200%Z ∨ results shop = [] →
  shops_loop [shop_name] shops s
  = (Ok (shops ++ [(shop_name, None)]), State w (analysed s))
  ∧ shops_loop (shop_name :: rest) shops s
    = match get_shops_and_listings rest (State w (analysed s)) with
      | (Ok entries, s') => (Ok (shops ++ (shop_name, None) :: entries), s')
      | (Raise e, s') => (Raise e, s')
      end.
Proof.
  intros Hget Hnot_found.
  assert (Hstep : ∀ names, shops_loop (shop_name :: names) shops s
    = shops_loop names (shops ++ [(shop_name, None)]) (State w (analysed s))).
  { intros names.
    pose proof (get_shop_listings_run _ _ _ _ Hget) as Hlistings.
    cbv iota in Hlistings.
    apply (shops_loop_not_found _ _ _ _ _ _ Hlistings).
    case_bool_decide as Hstatus; [|done].
    destruct Hnot_found as [Hne| ->]; [done|reflexivity]. }
  split.
  - by rewrite Hstep.
  - rewrite Hstep, shops_loop_continues.
    destruct (get_shops_and_listings rest (State w (analysed s)))
      as [[entries|e] s']; [|done].
    by rewrite <- app_assoc.
Qed.

Lemma get_top_n_counts_nothing :
  get_top_n_counts [] 5 = Raise ValueError.
Proof.
  apply get_top_n_counts_short; [done|]. simpl. lia.
Qed.

(** C2, where the code breaks it: for a shop with listings but no token,
    cleaning gives the empty list and counting the empty mapping, and then
    the selection of the top 5 raises [ValueError], which ends
    [get_shops_and_listings]. *)
Theorem shop_without_tokens_raises (shop_name : str) (rest : list str)
    shops s (shop : response) (w : World) :
  requests_get shop_name (world s) = (Ok shop, w) →
  status_code shop = 200%Z →
  results shop ≠ [] →
  get_descriptions_and_titles (results shop) = [] →
  (clean_words [] shop_name).2 = []
  ∧ get_unique_terms_counts set_iter [] = []
  ∧ get_top_n_counts [] 5 = Raise ValueError
  ∧ shops_loop (shop_name :: rest) shops s
    = (Raise ValueError, State w (analysed s ++ [shop_name])).
Proof.
  intros Hget Hstatus Hlistings Hwords. split_and!.
  - reflexivity.
  - by apply get_unique_terms_counts_nil.
  - apply get_top_n_counts_nothing.
  - pose proof (get_shop_listings_run _ _ _ _ Hget) as Hfound.
    cbv iota in Hfound. rewrite bool_decide_eq_true_2 in Hfound by done.
    rewrite (shops_loop_found _ rest shops _ _ _ Hfound)
      by (by destruct (results shop)).
    cbn [default id world analysed]. rewrite Hwords.
    change (clean_words [] shop_name).2 with (@nil str).
    cbv zeta. by rewrite get_top_n_counts_nothing.
Qed.

(** C10, as the code has it. Whenever [get_shops_and_listings] returns,
    the result has one entry per name, in the order of the names, each
    with its name as first component. *)
Theorem get_shops_and_listings_entries (shop_names : list str) s
    (result : list shop_entry) s' :
  get_shops_and_listings shop_names s = (Ok result, s') →
  length result = length shop_names ∧ result.*1 = shop_names.
Proof.
  intros (entries & -> & Hnames)%shops_loop_returned. simpl.
  split; [|done]. by rewrite <- Hnames, length_fmap.
Qed.

End Orchestrator.

(** ** Runs on concrete input *)

Import Ascii7.

Lemma last_seen_distinct (words : list str) :
  last_seen words ≡ₚ remove_dups words.
Proof. reflexivity. Defined.

Lemma get_unique_terms_counts_counts_run :
  NoDup (dict_keys (get_unique_terms_counts last_seen [py "B"; py "M"; py "B"]))
  ∧ (∀ token,
       token ∈ dict_keys (get_unique_terms_counts last_seen [py "B"; py "M"; py "B"])
       ↔ token ∈ [py "B"; py "M"; py "B"])
  ∧ sum_list (get_unique_terms_counts last_seen [py "B"; py "M"; py "B"]).*2
    = length [py "B"; py "M"; py "B"]
  ∧ get_unique_terms_counts last_seen [] = [].
Proof.
  apply (get_unique_terms_counts_counts last_seen last_seen_distinct).
Defined.

Lemma get_top_n_counts_underflow_raises_run :
  length (remove_dups [py "B"; py "M"; py "B"]) < 5
  ∧ get_top_n_counts last_seen [py "B"; py "M"; py "B"] 5 = Raise ValueError.
Proof.
  assert (Hfew : length (remove_dups [py "B"; py "M"; py "B"]) < 5)
    by (vm_compute; lia).
  split; [exact Hfew|].
  exact (get_top_n_counts_underflow_raises last_seen last_seen_distinct
           [py "B"; py "M"; py "B"] 5 Hfew).
Defined.

Lemma get_top_n_counts_result_invariant_run :
  get_top_n_counts last_seen [py "B"; py "M"; py "B"] 2
  = Ok [(py "B", 2); (py "M", 1)]
  ∧ NoDup [(py "B", 2); (py "M", 1)].*1
  ∧ Forall (λ pair, 1 ≤ pair.2) [(py "B", 2); (py "M", 1)].
Proof.
  assert (Hrun : get_top_n_counts last_seen [py "B"; py "M"; py "B"] 2
                 = Ok [(py "B", 2); (py "M", 1)]) by reflexivity.
  split; [exact Hrun|].
  exact (get_top_n_counts_result_invariant last_seen last_seen_distinct
           _ _ _ Hrun).
Defined.


Lemma not_found_shop_is_marked_run :
  online catalogue (py "nobody") tt = (Ok (Response 404 []), tt)
  ∧ shops_loop isalpha upper split last_seen stop_words unit (online catalogue)
      [py "nobody"] [] (State tt [])
    = (Ok [(py "nobody", None)], State tt [])
  ∧ shops_loop isalpha upper split last_seen stop_words unit (online catalogue)
      [py "nobody"; py "mugs"] [] (State tt [])
    = (Ok [(py "nobody", None); (py "mugs", Some Sample.mug_top_5)],
       State tt [py "mugs"]).
Proof.
  assert (Hget : online catalogue (py "nobody") (world (State tt []))
                 = (Ok (Response 404 []), tt)) by reflexivity.
  split; [exact Hget|].
  destruct (not_found_shop_is_marked isalpha upper split last_seen stop_words
              unit (online catalogue) (py "nobody") [py "mugs"] []
              (State tt []) (Response 404 []) tt Hget)
    as [Hlast Hnext].
  { left. simpl. lia. }
  split; [exact Hlast|]. rewrite Hnext. reflexivity.
Defined.

Lemma shop_without_tokens_raises_run :
  online catalogue (py "bare") tt = (Ok (Response 200 bare_shop), tt)
  ∧ get_descriptions_and_titles upper split bare_shop = []
  ∧ shops_loop isalpha upper split last_seen stop_words unit (online catalogue)
      [py "bare"; py "mugs"] [] (State tt [])
    = (Raise ValueError, State tt [py "bare"]).
Proof.
  assert (Hget : online catalogue (py "bare") (world (State tt []))
                 = (Ok (Response 200 bare_shop), tt)) by reflexivity.
  assert (Hwords : get_descriptions_and_titles upper split
                     (results (Response 200 bare_shop)) = []) by reflexivity.
  split; [exact Hget|]. split; [exact Hwords|].
  apply (shop_without_tokens_raises isalpha upper split last_seen stop_words
           unit (online catalogue) last_seen_distinct (py "bare") [py "mugs"]
           [] (State tt []) (Response 200 bare_shop) tt Hget);
    [reflexivity|discriminate|exact Hwords].
Defined.

Lemma get_shops_and_listings_entries_run :
  get_shops_and_listings isalpha upper split last_seen stop_words unit
    (online catalogue) [py "mugs"; py "nobody"] (State tt [])
  = (Ok [(py "mugs",
          Some [(py "MUG", 3); (py "DOG", 2); (py "BLUE", 2);
                (py "COFFEE", 1); (py "BIRD", 1)]);
         (py "nobody", None)],
     State tt [py "mugs"])
  ∧ [py "mugs"; py "nobody"]
    = [(py "mugs",
        Some [(py "MUG", 3); (py "DOG", 2); (py "BLUE", 2);
              (py "COFFEE", 1); (py "BIRD", 1)]);
       (py "nobody", @None top_words_t)].*1.
Proof.
  assert (Hrun : get_shops_and_listings isalpha upper split last_seen
                   stop_words unit (online catalogue)
                   [py "mugs"; py "nobody"] (State tt [])
    = (Ok [(py "mugs",
            Some [(py "MUG", 3); (py "DOG", 2); (py "BLUE", 2);
                  (py "COFFEE", 1); (py "BIRD", 1)]);
           (py "nobody", None)],
       State tt [py "mugs"])) by (vm_compute; reflexivity).
  split; [exact Hrun|]. symmetry.
  apply (get_shops_and_listings_entries _ _ _ _ _ _ _ _ _ _ _ Hrun).
Defined.

(** C10, as the specification states it, fails: with the network down
    [get_shops_and_listings] raises [ConnectionError] and returns no
    entry at all. *)
Lemma get_shops_and_listings_offline :
  ¬ ∃ result s',
      get_shops_and_listings isalpha upper split last_seen stop_words unit
        offline [py "mugs"] (State tt []) = (Ok result, s').
Proof. intros (result & s' & Hrun). vm_compute in Hrun. discriminate Hrun. Qed.

(** * Further properties of the pipeline *)

(** ** Text extraction and cleaning *)

Section Extraction.

Variable char_isalpha : char → bool.
Variable str_upper : str → str.
Variable str_split : str → list str.
Variable STOP_WORDS : gset str.

Local Abbreviation str_isalpha := (str_isalpha char_isalpha).
Local Abbreviation remove_non_alpha := (remove_non_alpha char_isalpha).
Local Abbreviation remove_stop_words := (remove_stop_words STOP_WORDS).
Local Abbreviation clean_words := (clean_words char_isalpha STOP_WORDS).
Local Abbreviation stripped := (stripped char_isalpha).
Local Abbreviation kept := (kept char_isalpha).
Local Abbreviation get_descriptions_and_titles :=
  (get_descriptions_and_titles str_upper str_split).

Lemma listing_words_app (listings1 listings2 : list listing) :
  get_descriptions_and_titles (listings1 ++ listings2)
  = get_descriptions_and_titles listings1
    ++ get_descriptions_and_titles listings2.
Proof.
  induction listings1 as [|listing rest IH]; [done|].
  simpl. rewrite IH. by rewrite <- !app_assoc.
Qed.

(** The words of two runs of listings are the words of the first run
    followed by those of the second. *)
Theorem get_descriptions_and_titles_app (listings1 listings2 : list listing) :
  get_descriptions_and_titles (listings1 ++ listings2)
  = get_descriptions_and_titles listings1
    ++ get_descriptions_and_titles listings2.
Proof. apply listing_words_app. Qed.

(** Listings without description and without title give no word, wherever
    they stand among the listings. *)
Theorem get_descriptions_and_titles_skips_bare
    (before bare after : list listing) :
  Forall (λ listing, description listing = None ∧ title listing = None) bare →
  get_descriptions_and_titles (before ++ bare ++ after)
  = get_descriptions_and_titles (before ++ after).
Proof.
  intros Hbare. rewrite !listing_words_app. do 2 f_equal.
  induction Hbare as [|listing bare [Hd Ht] _ IH]; [done|].
  simpl. by rewrite Hd, Ht.
Qed.

Lemma str_isalpha_remove_non_alpha (word : str) :
  remove_non_alpha word ≠ [] → str_isalpha (remove_non_alpha word) = true.
Proof.
  intros Hne. unfold str_isalpha. apply andb_true_intro. split.
  - apply forallb_forall. intros c Hc. apply list_elem_of_In in Hc.
    pose proof (remove_non_alpha_alpha char_isalpha word) as Hall.
    rewrite Forall_forall in Hall. by apply Hall.
  - by rewrite bool_decide_eq_false_2.
Qed.

Lemma kept_alpha_or_shop_name (shop_name word0 word : str) :
  kept shop_name word0 = Some word →
  str_isalpha word = true ∨ word = shop_name.
Proof.
  unfold kept.
  destruct (str_isalpha word0) eqn:Halpha; simpl.
  { intros [= <-]. by left. }
  case_bool_decide as Hshop; simpl.
  { intros [= <-]. by right. }
  case_bool_decide as Hne; [|done].
  intros [= <-]. left. by apply str_isalpha_remove_non_alpha.
Qed.

Lemma kept_fixed (shop_name word : str) :
  str_isalpha word = true ∨ word = shop_name →
  kept shop_name word = Some word.
Proof.
  intros [Halpha| ->]; unfold kept.
  - by rewrite Halpha.
  - rewrite (bool_decide_eq_true_2 (shop_name = shop_name)) by done.
    by rewrite orb_true_r.
Qed.

Lemma cleaned_words_clean (words : list str) (shop_name : str) :
  Forall (λ word, (word ∉ STOP_WORDS)
                  ∧ (str_isalpha word = true ∨ word = shop_name))
    (clean_words words shop_name).2.
Proof.
  rewrite clean_words_spec. cbn [snd]. apply Forall_forall. intros word Hin.
  apply remove_stop_words_elem in Hin as [Hin Hout]. split; [done|].
  apply list_elem_of_omap in Hin as (word0 & _ & Hkept).
  by eapply kept_alpha_or_shop_name.
Qed.

(** Every word [clean_words] returns is outside the stop words and is
    fully alphabetic, unless it is the shop's name. *)
Theorem clean_words_returns_clean (words : list str) (shop_name : str) :
  Forall (λ word, (word ∉ STOP_WORDS)
                  ∧ (str_isalpha word = true ∨ word = shop_name))
    (clean_words words shop_name).2.
Proof. apply cleaned_words_clean. Qed.

(** Cleaning two runs of words one after the other gives, for the returned
    words as for the caller's list, the two results one after the other. *)
Theorem clean_words_app (words1 words2 : list str) (shop_name : str) :
  clean_words (words1 ++ words2) shop_name
  = ((clean_words words1 shop_name).1 ++ (clean_words words2 shop_name).1,
     (clean_words words1 shop_name).2 ++ (clean_words words2 shop_name).2).
Proof.
  rewrite !clean_words_spec. cbn [fst snd].
  by rewrite fmap_app, omap_app, remove_stop_words_app.
Qed.

(** The returned words are entries of the caller's list as the call leaves
    it, in the same order: none is added, so there are no more of them
    than words given. *)
Theorem clean_words_sublist (words : list str) (shop_name : str) :
  sublist (clean_words words shop_name).2 (clean_words words shop_name).1
  ∧ length (clean_words words shop_name).2 ≤ length words.
Proof.
  assert (Hsub : sublist (clean_words words shop_name).2
                   (clean_words words shop_name).1).
  { rewrite clean_words_spec. cbn [fst snd].
    transitivity (omap (kept shop_name) words); [apply sublist_filter|].
    induction words as [|word words IH]; [done|].
    rewrite fmap_cons. cbn [omap list_omap]. unfold kept at 1, stripped at 1.
    destruct (str_isalpha word || bool_decide (word = shop_name)).
    - by apply sublist_skip.
    - case_bool_decide; [by apply sublist_skip|by apply sublist_cons]. }
  split; [done|]. apply sublist_length in Hsub.
  rewrite clean_words_spec in Hsub. cbn [fst snd] in Hsub.
  rewrite length_fmap in Hsub. by rewrite clean_words_spec.
Qed.

Lemma clean_words_fixed (words : list str) (shop_name : str) :
  Forall (λ word, (word ∉ STOP_WORDS)
                  ∧ (str_isalpha word = true ∨ word = shop_name)) words →
  (clean_words words shop_name).2 = words.
Proof.
  intros Hall. rewrite clean_words_spec. cbn [snd].
  induction Hall as [|word words [Hout Hword] _ IH]; [done|].
  cbn [omap list_omap]. rewrite kept_fixed by done.
  unfold remove_stop_words in *. rewrite filter_cons_True by done.
  by rewrite IH.
Qed.

(** Cleaning what [clean_words] returned changes nothing. *)
Theorem clean_words_idempotent (words : list str) (shop_name : str) :
  (clean_words (clean_words words shop_name).2 shop_name).2
  = (clean_words words shop_name).2.
Proof. apply clean_words_fixed, cleaned_words_clean. Qed.

Lemma stripped_stripped (shop_name word : str) :
  stripped shop_name (stripped shop_name word) = stripped shop_name word.
Proof.
  unfold stripped.
  destruct (str_isalpha word || bool_decide (word = shop_name)) eqn:Hword;
    [by rewrite Hword|].
  destruct (str_isalpha (remove_non_alpha word)
            || bool_decide (remove_non_alpha word = shop_name)); [done|].
  apply remove_non_alpha_fixed, remove_non_alpha_alpha.
Qed.

Lemma kept_stripped (shop_name word : str) :
  shop_name ≠ [] →
  kept shop_name (stripped shop_name word) = kept shop_name word.
Proof.
  intros Hshop. unfold stripped.
  destruct (str_isalpha word || bool_decide (word = shop_name)) eqn:Hword;
    [done|].
  assert (Hkept : kept shop_name word
    = if bool_decide (remove_non_alpha word ≠ [])
      then Some (remove_non_alpha word) else None).
  { unfold kept. by rewrite Hword. }
  rewrite Hkept. case_bool_decide as Hne.
  - apply kept_fixed. left. by apply str_isalpha_remove_non_alpha.
  - rewrite Hne. unfold kept.
    rewrite (bool_decide_eq_false_2 ([] = shop_name)) by done.
    reflexivity.
Qed.

(** A second call on the list a first call has written to leaves the list
    as it is and, for a shop name that is not empty, returns the same
    words. *)
Theorem clean_words_again (words : list str) (shop_name : str) :
  (clean_words (clean_words words shop_name).1 shop_name).1
  = (clean_words words shop_name).1
  ∧ (shop_name ≠ [] →
     (clean_words (clean_words words shop_name).1 shop_name).2
     = (clean_words words shop_name).2).
Proof.
  rewrite !clean_words_spec. cbn [fst snd]. split.
  - rewrite <- list_fmap_compose. apply list_fmap_ext.
    intros i word _. apply stripped_stripped.
  - intros Hshop. f_equal. induction words as [|word words IH]; [done|].
    rewrite fmap_cons. cbn [omap list_omap].
    by rewrite kept_stripped, IH.
Qed.

End Extraction.

(** ** Counting and ranking *)

Lemma dict_get_missing (d : dict) (k : str) :
  k ∉ dict_keys d → dict_get d k = None.
Proof.
  induction d as [|[k' v'] d IH]; simpl; [done|].
  intros Hout. apply not_elem_of_cons in Hout as [Hne Hout].
  rewrite decide_False by done. auto.
Qed.

Lemma list_count_Permutation (word : str) (words words' : list str) :
  words ≡ₚ words' → list_count word words = list_count word words'.
Proof.
  induction 1 as [|w l l' _ IH|w1 w2 l|l1 l2 l3 _ IH1 _ IH2]; simpl; lia.
Qed.

Lemma list_count_app (word : str) (words1 words2 : list str) :
  list_count word (words1 ++ words2)
  = list_count word words1 + list_count word words2.
Proof. induction words1 as [|w words1 IH]; simpl; lia. Qed.

Section Ranking.

Variable set_iter : list str → list str.
Hypothesis set_iter_distinct : ∀ words, set_iter words ≡ₚ remove_dups words.

Local Abbreviation get_unique_terms_counts :=
  (get_unique_terms_counts set_iter).
Local Abbreviation get_top_n_counts := (get_top_n_counts set_iter).

(** Looking a word up in the mapping gives the number of its occurrences
    when it occurs, and is a missing key when it does not. *)
Theorem get_unique_terms_counts_lookup (words : list str) (word : str) :
  dict_get (get_unique_terms_counts words) word
  = if decide (word ∈ words) then Some (list_count word words) else None.
Proof.
  destruct (decide (word ∈ words)) as [Hin|Hout].
  - apply dict_get_unique; [by apply word_counts_NoDup|].
    rewrite get_unique_terms_counts_spec by done.
    apply (list_elem_of_fmap_2 (λ w, (w, list_count w words))).
    by apply set_iter_elem.
  - apply dict_get_missing.
    rewrite get_unique_terms_counts_keys by done.
    by rewrite set_iter_elem.
Qed.

(** The mapping does not depend on the order of the words: reordering the
    input gives the same entries, up to their order in the dictionary. *)
Theorem get_unique_terms_counts_Permutation (words words' : list str) :
  words ≡ₚ words' →
  get_unique_terms_counts words ≡ₚ get_unique_terms_counts words'.
Proof.
  intros Hperm. rewrite !get_unique_terms_counts_spec by done.
  assert (Hiter : set_iter words ≡ₚ set_iter words').
  { apply NoDup_Permutation; [by apply set_iter_NoDup..|].
    intros w. rewrite !set_iter_elem by done. by rewrite Hperm. }
  rewrite Hiter.
  rewrite (list_fmap_ext (λ w, (w, list_count w words))
             (λ w, (w, list_count w words')) (set_iter words')); [done|].
  intros i w _. f_equal. by apply list_count_Permutation.
Qed.

(** The mapping of two runs of words counts each word once for each run:
    the count of a word in the concatenation is the sum of its counts. *)
Theorem get_unique_terms_counts_app (words1 words2 : list str) (word : str) :
  word ∈ words1 ++ words2 →
  dict_get (get_unique_terms_counts (words1 ++ words2)) word
  = Some (list_count word words1 + list_count word words2).
Proof.
  intros Hin. apply dict_get_unique; [by apply word_counts_NoDup|].
  rewrite get_unique_terms_counts_spec by done.
  rewrite <- list_count_app.
  apply (list_elem_of_fmap_2 (λ w, (w, list_count w (words1 ++ words2)))).
  by apply set_iter_elem.
Qed.

End Ranking.

Section SelectingMore.

Implicit Types (d : dict) (acc r : top_words_t).

Lemma top_n_loop_extends n d acc r :
  top_n_loop n d acc = Ok r → ∃ r', r = acc ++ r'.
Proof.
  revert d acc. induction n as [|n IH]; intros d acc Hrun.
  { injection Hrun as <-. exists []. by rewrite app_nil_r. }
  destruct d as [|entry d]; [discriminate|].
  destruct (top_n_loop_step (entry :: d)) as (k & v & _ & _ & Hstep); [done|].
  rewrite Hstep in Hrun. apply IH in Hrun as [r' ->].
  exists ((k, v) :: r'). by rewrite <- app_assoc.
Qed.

(** What the loop appends and what it leaves in the dictionary make up the
    dictionary, and no count left behind exceeds a count taken. *)
Lemma top_n_loop_partition n d acc r :
  top_n_loop n d acc = Ok r →
  NoDup (dict_keys d) →
  ∃ r' rest,
    r = acc ++ r'
    ∧ d ≡ₚ r' ++ rest
    ∧ Forall (λ a, Forall (λ b, b.2 ≤ a.2) rest) r'.
Proof.
  revert d acc. induction n as [|n IH]; intros d acc Hrun Hnodup.
  { injection Hrun as <-. exists [], d. by rewrite app_nil_r. }
  destruct d as [|entry d]; [discriminate|].
  destruct (top_n_loop_step (entry :: d)) as
    (k & v & Hget & Hgreatest & Hstep); [done|].
  rewrite Hstep in Hrun.
  pose proof (dict_remove_perm _ k v Hget) as Hperm.
  apply IH in Hrun as (r' & rest & -> & Hsplit & Hdom);
    [|by eapply dict_remove_NoDup].
  exists ((k, v) :: r'), rest. split_and!.
  - by rewrite <- app_assoc.
  - rewrite Hperm. simpl. by rewrite Hsplit.
  - constructor; [|done]. apply Forall_forall. intros [k' v'] Hin. simpl.
    apply Hgreatest with k'. apply dict_get_unique; [done|].
    rewrite Hperm. apply list_elem_of_further. rewrite Hsplit.
    apply elem_of_app. by right.
Qed.

(** Fewer rounds give the first entries of what more rounds give. *)
Lemma top_n_loop_prefix n m d acc r :
  top_n_loop m d acc = Ok r →
  n ≤ m →
  top_n_loop n d acc = Ok (take (length acc + n) r).
Proof.
  revert m d acc. induction n as [|n IH]; intros m d acc Hrun Hle.
  { apply top_n_loop_extends in Hrun as [r' ->].
    by rewrite Nat.add_0_r, take_app_length. }
  destruct m as [|m]; [lia|].
  destruct d as [|entry d]; [discriminate|].
  destruct (top_n_loop_step (entry :: d)) as (k & v & _ & _ & Hstep); [done|].
  rewrite Hstep in Hrun. rewrite Hstep.
  rewrite (IH m _ _ Hrun) by lia. do 2 f_equal.
  rewrite length_app. simpl. lia.
Qed.

End SelectingMore.

(** ** Ties *)

Section MaxFirst.

Context {A : Type} (key : A → res nat).

(** [max_loop] keeps the running best unless a later item has a strictly
    greater key: the item returned is the first of those with the greatest
    key. *)
Lemma max_loop_first (items : list A) (best : A) (best_key : nat) :
  key best = Ok best_key →
  (∀ item, item ∈ items → ∃ v, key item = Ok v) →
  ∃ top top_key,
    max_loop key best best_key items = Ok top
    ∧ key top = Ok top_key
    ∧ ((top = best ∧ top_key = best_key
        ∧ ∀ item v, item ∈ items → key item = Ok v → v ≤ best_key)
       ∨ ∃ before after,
           items = before ++ top :: after
           ∧ best_key < top_key
           ∧ (∀ item v, item ∈ before → key item = Ok v → v < top_key)
           ∧ (∀ item v, item ∈ after → key item = Ok v → v ≤ top_key)).
Proof.
  revert best best_key.
  induction items as [|item items IH]; intros best best_key Hbest Hkeys.
  { exists best, best_key. split_and!; [done..|]. left. split_and!; [done..|].
    intros item v Hin. by apply elem_of_nil in Hin. }
  destruct (Hkeys item) as [v Hv]; [apply list_elem_of_here|].
  assert (Hrest : ∀ x, x ∈ items → ∃ w, key x = Ok w).
  { intros x Hx. apply Hkeys. by apply list_elem_of_further. }
  simpl. rewrite Hv. simpl. destruct (best_key <? v) eqn:Hlt.
  - apply Nat.ltb_lt in Hlt.
    destruct (IH item v Hv Hrest) as (top & top_key & -> & Htop & Hcases).
    exists top, top_key. split_and!; [done..|]. right.
    destruct Hcases as [(-> & -> & Hmax)|(before & after & -> & Hgt & Hb & Ha)].
    + exists [], items. split_and!; [done..| |done].
      intros x w Hx. by apply elem_of_nil in Hx.
    + exists (item :: before), after. split_and!; [done|lia| |done].
      intros x w [->|Hx]%elem_of_cons Hw; [|eauto].
      rewrite Hv in Hw. injection Hw as <-. done.
  - apply Nat.ltb_ge in Hlt.
    destruct (IH best best_key Hbest Hrest) as (top & top_key & -> & Htop & Hcases).
    exists top, top_key. split_and!; [done..|].
    destruct Hcases as [(-> & -> & Hmax)|(before & after & -> & Hgt & Hb & Ha)].
    + left. split_and!; [done..|].
      intros x w [->|Hx]%elem_of_cons Hw; [|eauto].
      rewrite Hv in Hw. injection Hw as <-. done.
    + right. exists (item :: before), after. split_and!; [done..| |done].
      intros x w [->|Hx]%elem_of_cons Hw; [|eauto].
      rewrite Hv in Hw. injection Hw as <-. lia.
Qed.

Lemma py_max_first (items : list A) :
  items ≠ [] →
  (∀ item, item ∈ items → ∃ v, key item = Ok v) →
  ∃ top top_key before after,
    py_max key items = Ok top
    ∧ key top = Ok top_key
    ∧ items = before ++ top :: after
    ∧ (∀ item v, item ∈ before → key item = Ok v → v < top_key)
    ∧ (∀ item v, item ∈ after → key item = Ok v → v ≤ top_key).
Proof.
  destruct items as [|item items]; [done|]. intros _ Hkeys.
  destruct (Hkeys item) as [v Hv]; [apply list_elem_of_here|].
  simpl. rewrite Hv. simpl.
  destruct (max_loop_first items item v Hv) as
    (top & top_key & -> & Htop & Hcases).
  { intros x Hx. apply Hkeys. by apply list_elem_of_further. }
  exists top, top_key.
  destruct Hcases as [(-> & -> & Hmax)|(before & after & -> & Hgt & Hb & Ha)].
  - exists [], items. split_and!; [done..| |done].
    intros x w Hx. by apply elem_of_nil in Hx.
  - exists (item :: before), after. split_and!; [done..| |done].
    intros x w [->|Hx]%elem_of_cons Hw; [|eauto].
    rewrite Hv in Hw. injection Hw as <-. done.
Qed.

End MaxFirst.

Section Ties.

Implicit Types (d : dict) (acc r : top_words_t).

Lemma dict_remove_middle d1 d2 k v :
  k ∉ dict_keys d1 → dict_remove (d1 ++ (k, v) :: d2) k = d1 ++ d2.
Proof.
  induction d1 as [|[k' v'] d1 IH]; simpl.
  - intros _. by rewrite decide_True.
  - intros Hout. apply not_elem_of_cons in Hout as [Hne Hout].
    rewrite decide_False by done. by rewrite IH.
Qed.

Lemma StronglySorted_weaken {B} (R R' : relation B) (l : list B) :
  (∀ a b, R a b → R' a b) → StronglySorted R l → StronglySorted R' l.
Proof.
  intros Himpl. induction 1 as [|a l _ IH Hall]; constructor; [done|].
  eapply Forall_impl; [exact Hall|]. auto.
Qed.

(** One round on a dictionary without repeated keys: the entry taken is
    the first of those with the greatest count. *)
Lemma top_n_loop_step_first d :
  d ≠ [] →
  NoDup (dict_keys d) →
  ∃ k v d1 d2,
    d = d1 ++ (k, v) :: d2
    ∧ Forall (λ b, b.2 < v) d1
    ∧ Forall (λ b, b.2 ≤ v) d2
    ∧ ∀ n acc,
        top_n_loop (S n) d acc = top_n_loop n (d1 ++ d2) (acc ++ [(k, v)]).
Proof.
  intros Hd Hnodup.
  destruct (py_max_first (dict_getitem d) (dict_keys d)) as
    (k & v & before & after & Hmax & Hk & Hkeys & Hbefore & Hafter).
  { destruct d; [done|discriminate]. }
  { intros k Hk. apply dict_getitem_key in Hk as (v & Hv & _). eauto. }
  unfold dict_keys in Hkeys.
  apply fmap_app_inv in Hkeys as (d1 & d2' & Hd1 & Hd2' & ->).
  symmetry in Hd2'. apply fmap_cons_inv in Hd2' as ([k' v'] & d2 & Hk' & Hd2 & ->).
  simpl in Hk'. subst k'.
  assert (Hget : dict_get (d1 ++ (k, v') :: d2) k = Some v').
  { apply dict_get_unique; [done|]. apply elem_of_app. right.
    apply list_elem_of_here. }
  assert (v' = v) as ->.
  { unfold dict_getitem in Hk. rewrite Hget in Hk. by injection Hk. }
  assert (Hvalue : ∀ b, b ∈ d1 ++ (k, v) :: d2 →
            dict_getitem (d1 ++ (k, v) :: d2) b.1 = Ok b.2).
  { intros [kb vb] Hb. unfold dict_getitem. simpl.
    by rewrite (dict_get_unique _ kb vb Hnodup Hb). }
  assert (Hfresh : k ∉ dict_keys d1).
  { unfold dict_keys in *. rewrite fmap_app, fmap_cons in Hnodup.
    apply NoDup_app in Hnodup as (_ & Hdisj & _).
    intros Hin. apply (Hdisj k Hin). apply list_elem_of_here. }
  exists k, v, d1, d2. split_and!; [done| | |].
  - apply Forall_forall. intros b Hb. apply (Hbefore b.1).
    + rewrite Hd1. by apply list_elem_of_fmap_2.
    + apply Hvalue. apply elem_of_app. by left.
  - apply Forall_forall. intros b Hb. apply (Hafter b.1).
    + rewrite Hd2. by apply list_elem_of_fmap_2.
    + apply Hvalue. apply elem_of_app. right. by apply list_elem_of_further.
  - intros n acc. simpl. rewrite Hmax. simpl. rewrite Hk. simpl.
    unfold dict_delitem. rewrite Hget. simpl.
    by rewrite dict_remove_middle.
Qed.

(** In what the loop appends, an entry stands before another when its
    count is greater, or when the counts are equal and it stands first in
    the dictionary. *)
Lemma top_n_loop_ties n d acc r :
  top_n_loop n d acc = Ok r →
  NoDup (dict_keys d) →
  ∃ r',
    r = acc ++ r'
    ∧ Forall (λ a, a ∈ d) r'
    ∧ StronglySorted
        (λ a b, b.2 < a.2 ∨ (b.2 = a.2 ∧ sublist [a; b] d)) r'.
Proof.
  revert d acc. induction n as [|n IH]; intros d acc Hrun Hnodup.
  { injection Hrun as <-. exists []. rewrite app_nil_r.
    split_and!; [done|done|constructor]. }
  destruct d as [|entry d]; [discriminate|].
  destruct (top_n_loop_step_first (entry :: d)) as
    (k & v & d1 & d2 & Hd & Hd1 & Hd2 & Hstep); [done..|].
  rewrite Hstep in Hrun. rewrite Hd in *. clear Hd Hstep entry d.
  assert (Hsub : sublist (d1 ++ d2) (d1 ++ (k, v) :: d2)).
  { apply sublist_app; [done|]. by apply sublist_cons. }
  apply IH in Hrun as (r' & -> & Hmem & Hsorted).
  2:{ unfold dict_keys in *. eapply sublist_NoDup; [exact Hnodup|].
      by apply fmap_sublist. }
  exists ((k, v) :: r'). split_and!.
  - by rewrite <- app_assoc.
  - constructor.
    + apply elem_of_app. right. apply list_elem_of_here.
    + eapply Forall_impl; [exact Hmem|]. intros a Ha. simpl in Ha.
      apply elem_of_app in Ha as [Ha|Ha]; apply elem_of_app;
        [by left|right; by apply list_elem_of_further].
  - constructor.
    + eapply StronglySorted_weaken; [|exact Hsorted].
      intros a b [Hlt|[Heq Hab]]; [by left|right]. split; [done|].
      by transitivity (d1 ++ d2).
    + apply Forall_forall. intros b Hb.
      rewrite Forall_forall in Hmem. apply Hmem in Hb.
      apply elem_of_app in Hb as [Hb|Hb].
      * left. rewrite Forall_forall in Hd1. by apply Hd1.
      * rewrite Forall_forall in Hd2. specialize (Hd2 b Hb). simpl in *.
        destruct (decide (b.2 = v)) as [Heq|Hne]; [right|left; lia].
        split; [done|]. apply sublist_inserts_l. apply sublist_skip.
        by apply singleton_sublist_l.
Qed.

End Ties.

Section TopWords.

Variable set_iter : list str → list str.
Hypothesis set_iter_distinct : ∀ words, set_iter words ≡ₚ remove_dups words.

Local Abbreviation get_unique_terms_counts :=
  (get_unique_terms_counts set_iter).
Local Abbreviation get_top_n_counts := (get_top_n_counts set_iter).

(** The words returned are the most frequent ones: a word of the input
    that is not among them occurs no more often than any of them. *)
Theorem get_top_n_counts_takes_greatest (words : list str) (n : nat)
    (top_words : top_words_t) (pair : str * nat) (word : str) :
  get_top_n_counts words n = Ok top_words →
  pair ∈ top_words →
  word ∈ words →
  word ∉ top_words.*1 →
  list_count word words ≤ pair.2.
Proof.
  intros Hrun Hpair Hword Hleft.
  apply top_n_loop_partition in Hrun as (r' & rest & Hr & Hsplit & Hdom);
    [|by apply word_counts_NoDup].
  simpl in Hr. subst r'.
  assert (Hentry : (word, list_count word words) ∈ top_words ++ rest).
  { rewrite <- Hsplit, get_unique_terms_counts_spec by done.
    apply (list_elem_of_fmap_2 (λ w, (w, list_count w words))).
    by apply set_iter_elem. }
  apply elem_of_app in Hentry as [Hentry|Hentry].
  { exfalso. apply Hleft.
    change word with (word, list_count word words).1.
    by apply list_elem_of_fmap_2. }
  rewrite Forall_forall in Hdom. specialize (Hdom pair Hpair).
  rewrite Forall_forall in Hdom. by apply Hdom in Hentry.
Qed.

(** Ties are broken by the order in which the set of words is iterated:
    of two returned words, the one returned first has the greater count,
    or the same count and the earlier place in that order. *)
Theorem get_top_n_counts_ties (words : list str) (n : nat)
    (top_words : top_words_t) :
  get_top_n_counts words n = Ok top_words →
  StronglySorted
    (λ a b, b.2 < a.2 ∨ (b.2 = a.2 ∧ sublist [a.1; b.1] (set_iter words)))
    top_words.
Proof.
  intros Hrun.
  apply top_n_loop_ties in Hrun as (r' & Hr & _ & Hsorted);
    [|by apply word_counts_NoDup].
  simpl in Hr. subst r'.
  eapply StronglySorted_weaken; [|exact Hsorted].
  intros a b [Hlt|[Heq Hab]]; [by left|right]. split; [done|].
  rewrite <- (get_unique_terms_counts_keys set_iter set_iter_distinct words).
  unfold dict_keys. by apply (fmap_sublist fst) in Hab.
Qed.

(** Asking for fewer words gives the first of the words a greater request
    returns. *)
Theorem get_top_n_counts_prefix (words : list str) (n m : nat)
    (top_words : top_words_t) :
  get_top_n_counts words m = Ok top_words →
  n ≤ m →
  get_top_n_counts words n = Ok (take n top_words).
Proof.
  intros Hrun Hle. unfold get_top_n_counts.
  by rewrite (top_n_loop_prefix n m _ [] top_words Hrun Hle).
Qed.

End TopWords.

(** ** Runs of the orchestrator *)

Section Runs.

Variable char_isalpha : char → bool.
Variable str_upper : str → str.
Variable str_split : str → list str.
Variable set_iter : list str → list str.
Variable STOP_WORDS : gset str.
Variable World : Type.
Variable requests_get : str → World → res response * World.

Hypothesis set_iter_distinct : ∀ words, set_iter words ≡ₚ remove_dups words.

Local Abbreviation clean_words := (clean_words char_isalpha STOP_WORDS).
Local Abbreviation get_descriptions_and_titles :=
  (get_descriptions_and_titles str_upper str_split).
Local Abbreviation get_top_n_counts := (get_top_n_counts set_iter).
Local Abbreviation get_shop_listings :=
  (get_shop_listings World requests_get).
Local Abbreviation shops_loop :=
  (shops_loop char_isalpha str_upper str_split set_iter STOP_WORDS
     World requests_get).
Local Abbreviation get_shops_and_listings :=
  (get_shops_and_listings char_isalpha str_upper str_split set_iter
     STOP_WORDS World requests_get).

Implicit Types (s : state World) (shops : list shop_entry).

(** An exception of the network leaves [get_shop_listings] as it is. *)
Theorem get_shop_listings_raises (shop_name : str) s (e : exn) (w : World) :
  requests_get shop_name (world s) = (Raise e, w) →
  get_shop_listings shop_name s = (Raise e, State w (analysed s)).
Proof. intros Hget. by rewrite (get_shop_listings_run _ _ _ _ _ _ Hget). Qed.

Lemma shops_loop_app (names1 names2 : list str) shops s :
  shops_loop (names1 ++ names2) shops s
  = match shops_loop names1 shops s with
    | (Ok result, s') => shops_loop names2 result s'
    | (Raise e, s') => (Raise e, s')
    end.
Proof.
  revert shops s. induction names1 as [|shop_name rest IH]; intros shops s.
  { done. }
  rewrite <- app_comm_cons.
  destruct (get_shop_listings shop_name s) as [[shop_listings|e] s1] eqn:Hget.
  - destruct (truthy shop_listings) eqn:Htruthy.
    + rewrite !(shops_loop_found _ _ _ _ _ _ _ _ _ _ _ _ _ Hget Htruthy).
      cbv zeta. destruct (get_top_n_counts _ 5) as [top_5_words|e]; [|done].
      apply IH.
    + rewrite !(shops_loop_not_found _ _ _ _ _ _ _ _ _ _ _ _ _ Hget Htruthy).
      apply IH.
  - by rewrite !(shops_loop_raised _ _ _ _ _ _ _ _ _ _ _ _ _ Hget).
Qed.

(** Analysing a list of shops is analysing its first part and then, from
    the state that leaves, its second part; an exception in the first part
    ends the run before the second is looked at. *)
Theorem get_shops_and_listings_app (names1 names2 : list str) s :
  get_shops_and_listings (names1 ++ names2) s
  = match get_shops_and_listings names1 s with
    | (Ok result1, s1) =>
        match get_shops_and_listings names2 s1 with
        | (Ok result2, s2) => (Ok (result1 ++ result2), s2)
        | (Raise e, s2) => (Raise e, s2)
        end
    | (Raise e, s1) => (Raise e, s1)
    end.
Proof.
  unfold get_shops_and_listings. rewrite shops_loop_app.
  destruct (shops_loop names1 [] s) as [[result1|e] s1]; [|done].
  rewrite <- (app_nil_r result1) at 1. apply shops_loop_accumulates.
Qed.

Lemma shops_loop_all_not_found (shop_names : list str) shops s :
  (∀ shop_name w, shop_name ∈ shop_names →
     ∃ shop w', requests_get shop_name w = (Ok shop, w')
                ∧ (status_code shop ≠ 200%Z ∨ results shop = [])) →
  ∃ s',
    shops_loop shop_names shops s
    = (Ok (shops ++ ((λ shop_name, (shop_name, None)) <$> shop_names)), s')
    ∧ analysed s' = analysed s.
Proof.
  revert shops s.
  induction shop_names as [|shop_name rest IH]; intros shops s Hnet.
  { exists s. by rewrite app_nil_r. }
  destruct (Hnet shop_name (world s)) as (shop & w & Hget & Hnot_found);
    [apply list_elem_of_here|].
  pose proof (get_shop_listings_run _ _ _ _ _ _ Hget) as Hlistings.
  cbv iota in Hlistings.
  rewrite (shops_loop_not_found _ _ _ _ _ _ _ _ _ _ _ _ _ Hlistings).
  2:{ case_bool_decide as Hstatus; [|done].
      destruct Hnot_found as [Hne| ->]; [done|reflexivity]. }
  destruct (IH (shops ++ [(shop_name, None)]) (State w (analysed s)))
    as (s' & -> & Hlog).
  { intros name w0 Hname. apply Hnet. by apply list_elem_of_further. }
  exists s'. rewrite <- app_assoc. by split.
Qed.

(** When the listing source finds none of the shops, the run returns every
    name with [None], in order, and analyses nothing. *)
Theorem get_shops_and_listings_none_found (shop_names : list str) s :
  (∀ shop_name w, shop_name ∈ shop_names →
     ∃ shop w', requests_get shop_name w = (Ok shop, w')
                ∧ (status_code shop ≠ 200%Z ∨ results shop = [])) →
  ∃ s',
    get_shops_and_listings shop_names s
    = (Ok ((λ shop_name, (shop_name, None)) <$> shop_names), s')
    ∧ analysed s' = analysed s.
Proof. intros Hnet. by apply (shops_loop_all_not_found shop_names [] s). Qed.

(** A shop found with at least 5 distinct cleaned words gets its entry.
    The selection returns the top 5 of its cleaned words; as the last name,
    the run returns the entries collected so far followed by the shop's
    name with that list; before further names, the run goes on with them
    and returns the entries collected so far, that entry, and the entries
    of the remaining names, or raises what the run on them raises. *)
Theorem found_shop_is_ranked (shop_name : str) (rest : list str) shops s
    (shop : response) (w : World) :
  requests_get shop_name (world s) = (Ok shop, w) →
  status_code shop = 200%Z →
  results shop ≠ [] →
  5 ≤ length (remove_dups
                (clean_words (get_descriptions_and_titles (results shop))
                   shop_name).2) →
  ∃ top_5_words,
    get_top_n_counts
      (clean_words (get_descriptions_and_titles (results shop)) shop_name).2 5
    = Ok top_5_words
    ∧ length top_5_words = 5
    ∧ shops_loop [shop_name] shops s
      = (Ok (shops ++ [(shop_name, Some top_5_words)]),
         State w (analysed s ++ [shop_name]))
    ∧ shops_loop (shop_name :: rest) shops s
      = match get_shops_and_listings rest
                (State w (analysed s ++ [shop_name])) with
        | (Ok entries, s') =>
            (Ok (shops ++ (shop_name, Some top_5_words) :: entries), s')
        | (Raise e, s') => (Raise e, s')
        end.
Proof.
  intros Hget Hstatus Hlistings Hdistinct.
  destruct (get_top_n_counts_enough set_iter set_iter_distinct _ 5 Hdistinct)
    as (top_5_words & Htop & Hlen & _).
  exists top_5_words. split; [done|]. split; [done|].
  pose proof (get_shop_listings_run _ _ _ _ _ _ Hget) as Hfound.
  cbv iota in Hfound. rewrite bool_decide_eq_true_2 in Hfound by done.
  assert (Hstep : ∀ names, shops_loop (shop_name :: names) shops s
    = shops_loop names (shops ++ [(shop_name, Some top_5_words)])
        (State w (analysed s ++ [shop_name]))).
  { intros names.
    rewrite (shops_loop_found _ _ _ _ _ _ _ _ names shops _ _ _ Hfound)
      by (by destruct (results shop)).
    cbn [default id world analysed]. cbv zeta. by rewrite Htop. }
  split.
  - by rewrite Hstep.
  - rewrite Hstep.
    rewrite (shops_loop_continues char_isalpha str_upper str_split set_iter
               STOP_WORDS World requests_get).
    destruct (get_shops_and_listings rest _) as [[entries|e] s']; [|done].
    by rewrite <- app_assoc.
Qed.

Lemma shops_loop_entries (shop_names : list str) shops s
    (result : list shop_entry) s' (P : shop_entry → Prop) :
  (∀ shop_name words top_5_words,
     get_top_n_counts (clean_words words shop_name).2 5 = Ok top_5_words →
     P (shop_name, Some top_5_words)) →
  (∀ shop_name, P (shop_name, None)) →
  Forall P shops →
  shops_loop shop_names shops s = (Ok result, s') →
  Forall P result.
Proof.
  intros Hsome Hnone. revert shops s.
  induction shop_names as [|shop_name rest IH]; intros shops s Hshops Hrun.
  { by injection Hrun as <- _. }
  destruct (get_shop_listings shop_name s) as [[shop_listings|e] s1] eqn:Hget.
  - destruct (truthy shop_listings) eqn:Htruthy.
    + rewrite (shops_loop_found _ _ _ _ _ _ _ _ _ _ _ _ _ Hget Htruthy) in Hrun.
      cbv zeta in Hrun.
      destruct (get_top_n_counts _ 5) as [top_5_words|e] eqn:Htop;
        [|discriminate].
      apply IH in Hrun; [done|]. apply Forall_app. split; [done|].
      constructor; [|done]. by eapply Hsome.
    + rewrite (shops_loop_not_found _ _ _ _ _ _ _ _ _ _ _ _ _ Hget Htruthy)
        in Hrun.
      apply IH in Hrun; [done|]. apply Forall_app. split; [done|].
      constructor; [|done]. apply Hnone.
  - rewrite (shops_loop_raised _ _ _ _ _ _ _ _ _ _ _ _ _ Hget) in Hrun.
    discriminate.
Qed.

(** In what the run returns, a list of top words is never empty or short:
    it has exactly 5 pairs, none of a stop word, each with a count of at
    least 1, the counts never going up. *)
Theorem get_shops_and_listings_top_5 (shop_names : list str) s
    (result : list shop_entry) s' :
  get_shops_and_listings shop_names s = (Ok result, s') →
  Forall (λ entry, ∀ top_5_words, entry.2 = Some top_5_words →
            length top_5_words = 5
            ∧ Forall (λ pair, (pair.1 ∉ STOP_WORDS) ∧ 1 ≤ pair.2) top_5_words
            ∧ StronglySorted (λ a b, b.2 ≤ a.2) top_5_words)
    result.
Proof.
  apply shops_loop_entries; [| |done].
  - intros shop_name words top_5_words Htop top [= <-].
    apply (get_top_n_counts_returned set_iter set_iter_distinct) in Htop
      as (Hlen & _ & Hsub & Hsorted).
    split_and!; [done| |done].
    apply Forall_forall. intros [word c] Hin. simpl.
    assert (Hd : (word, c) ∈ get_unique_terms_counts set_iter
                   (clean_words words shop_name).2)
      by (by eapply elem_of_submseteq).
    apply get_unique_terms_counts_exact in Hd as [Hword ->]; [|done].
    split; [|by apply list_count_pos].
    pose proof (cleaned_words_clean char_isalpha STOP_WORDS words shop_name)
      as Hclean.
    rewrite Forall_forall in Hclean. by apply Hclean in Hword as [? _].
  - intros shop_name top [=].
Qed.

End Runs.

(** ** The console *)

Section Printing.

Variable format_word_count : str * nat → str.

Local Abbreviation format_analysis_for_console :=
  (format_analysis_for_console format_word_count).
Local Abbreviation print_shop_analysis_to_console :=
  (print_shop_analysis_to_console format_word_count).
Local Abbreviation print_analysis_to_console :=
  (print_analysis_to_console format_word_count).

Lemma print_analysis_to_console_lines (shops : list shop_entry)
    (out : list str) :
  print_analysis_to_console shops out
  = (Done tt,
     out ++ concat
       ((λ shop,
           match shop.2 with
           | Some (first :: top_words) =>
               [Ascii7.py "Top 5 Words for " ++ shop.1 ++ Ascii7.py ":";
                fold_left (λ words_string word_count,
                             words_string ++ format_word_count word_count)
                  (first :: top_words) [];
                Ascii7.py " "]
           | _ => [CANNOT_FIND_SHOP_ERROR_MESSAGE ++ shop.1]
           end) <$> shops)).
Proof.
  revert out. induction shops as [|[shop_name top_words] rest IH]; intros out.
  { simpl. by rewrite app_nil_r. }
  rewrite fmap_cons. cbn [concat print_analysis_to_console fst snd].
  destruct top_words as [[|first top_words]|]; cbn [truthy_top_words].
  - unfold cannot_find_shop_error. rewrite IH. by rewrite <- app_assoc.
  - unfold print_shop_analysis_to_console, format_analysis_for_console.
    cbn [fst snd]. rewrite IH. by rewrite <- !app_assoc.
  - unfold cannot_find_shop_error. rewrite IH. by rewrite <- app_assoc.
Qed.

(** [print_analysis_to_console] never raises: the test on [shop[1]] keeps
    [None] away from the formatting. It only adds lines, three for an entry
    with a non-empty list of top words and one for any other entry. *)
Theorem print_analysis_to_console_total (shops : list shop_entry)
    (out : list str) :
  ∃ lines,
    print_analysis_to_console shops out = (Done tt, out ++ lines)
    ∧ length lines
      = 3 * length (filter (λ shop, truthy_top_words shop.2 = true) shops)
        + length (filter (λ shop, truthy_top_words shop.2 = false) shops).
Proof.
  rewrite print_analysis_to_console_lines. eexists. split; [done|].
  induction shops as [|[shop_name top_words] rest IH]; [done|].
  rewrite fmap_cons. cbn [concat]. rewrite length_app, IH.
  destruct top_words as [[|first top_words]|]; cbn [snd truthy_top_words].
  - rewrite filter_cons_False by done. rewrite filter_cons_True by done.
    simpl. lia.
  - rewrite filter_cons_True by done. rewrite filter_cons_False by done.
    simpl. lia.
  - rewrite filter_cons_False by done. rewrite filter_cons_True by done.
    simpl. lia.
Qed.

(** Printing two runs of entries is printing the first and then, below
    it, the second. *)
Theorem print_analysis_to_console_app (shops1 shops2 : list shop_entry)
    (out : list str) :
  print_analysis_to_console (shops1 ++ shops2) out
  = print_analysis_to_console shops2
      (print_analysis_to_console shops1 out).2.
Proof.
  rewrite !print_analysis_to_console_lines. cbn [snd].
  by rewrite fmap_app, concat_app, app_assoc.
Qed.

End Printing.

Section Analyses.

Variable char_isalpha : char → bool.
Variable str_upper : str → str.
Variable str_split : str → list str.
Variable set_iter : list str → list str.
Variable STOP_WORDS : gset str.
Variable World : Type.
Variable requests_get : str → World → res response * World.
Variable format_word_count : str * nat → str.

Hypothesis set_iter_distinct : ∀ words, set_iter words ≡ₚ remove_dups words.

Local Abbreviation get_shops_and_listings :=
  (get_shops_and_listings char_isalpha str_upper str_split set_iter
     STOP_WORDS World requests_get).
Local Abbreviation print_analysis_to_console :=
  (print_analysis_to_console format_word_count).
Local Abbreviation custom_analysis :=
  (custom_analysis char_isalpha str_upper str_split set_iter STOP_WORDS
     World requests_get format_word_count).
Local Abbreviation default_analysis :=
  (default_analysis char_isalpha str_upper str_split set_iter STOP_WORDS
     World requests_get format_word_count).

Implicit Types (s : state World) (out : list str).

Lemma get_shops_and_listings_nonempty (shop_names : list str) s
    (result : list shop_entry) s' :
  shop_names ≠ [] →
  get_shops_and_listings shop_names s = (Ok result, s') →
  ∃ shop rest, result = shop :: rest.
Proof.
  intros Hnames (entries & -> & Hentries)%shops_loop_returned.
  destruct entries as [|shop rest]; [by subst|]. by exists shop, rest.
Qed.

(** What the run returns is printed with the top-words lines for exactly
    the shops that were found and the cannot-find line for exactly the
    others: a returned list of top words is never taken for [None]. *)
Theorem print_analysis_of_run (shop_names : list str) s
    (result : list shop_entry) s' out :
  get_shops_and_listings shop_names s = (Ok result, s') →
  print_analysis_to_console result out
  = (Done tt,
     out ++ concat
       ((λ shop,
           match shop.2 with
           | Some top_words =>
               [Ascii7.py "Top 5 Words for " ++ shop.1 ++ Ascii7.py ":";
                fold_left (λ words_string word_count,
                             words_string ++ format_word_count word_count)
                  top_words [];
                Ascii7.py " "]
           | None => [CANNOT_FIND_SHOP_ERROR_MESSAGE ++ shop.1]
           end) <$> result)).
Proof.
  intros Hrun. rewrite print_analysis_to_console_lines. do 3 f_equal.
  apply list_fmap_ext. intros i [shop_name top_words] Hi.
  assert (Hfull : Forall (λ shop : shop_entry, shop.2 ≠ Some []) result).
  { revert Hrun. apply shops_loop_entries; [| |done].
    - intros name words top Htop [= ->].
      apply (get_top_n_counts_returned set_iter set_iter_distinct) in Htop
        as (Hlen & _). discriminate Hlen.
    - intros name [=]. }
  rewrite Forall_forall in Hfull.
  apply list_elem_of_lookup_2 in Hi. apply Hfull in Hi.
  cbn [fst snd] in *. by destruct top_words as [[|first top_words]|].
Qed.


(** Given at least one name, [custom_analysis] prints the running message
    and then either the analysis of what the run returned, or nothing more
    when the run raised; the exception of the run is the one it raises. *)
Theorem custom_analysis_outcome (shop_names : list str) s out :
  shop_names ≠ [] →
  custom_analysis shop_names s out
  = match get_shops_and_listings shop_names s with
    | (Ok shops, s') =>
        (Done tt, s',
         (print_analysis_to_console shops
            (out ++ [RUNNING_ANALYSIS_MESSAGE])).2)
    | (Raise e, s') =>
        (Fail (FromAnalysis e), s', out ++ [RUNNING_ANALYSIS_MESSAGE])
    end.
Proof.
  intros Hnames. unfold custom_analysis.
  destruct (get_shops_and_listings shop_names s) as [[result|e] s'] eqn:Hrun;
    [|done].
  destruct (get_shops_and_listings_nonempty _ _ _ _ Hnames Hrun)
    as (shop & rest & ->).
  by rewrite print_analysis_to_console_lines.
Qed.

(** [default_analysis] never reaches its call of [cannot_find_shop_error]:
    it prints the running message and then either the analysis of the ten
    shops and the closing line, or nothing more when the run raised. *)
Theorem default_analysis_outcome s out :
  default_analysis s out
  = match get_shops_and_listings default_shop_names s with
    | (Ok shops, s') =>
        (Done tt, s',
         (print_analysis_to_console shops
            (out ++ [RUNNING_ANALYSIS_MESSAGE])).2
         ++ [Ascii7.py "The above are the top 5 terms for 10 different Etsy Shops"])
    | (Raise e, s') =>
        (Fail (FromAnalysis e), s', out ++ [RUNNING_ANALYSIS_MESSAGE])
    end.
Proof.
  unfold default_analysis.
  destruct (get_shops_and_listings default_shop_names s)
    as [[result|e] s'] eqn:Hrun; [|done].
  assert (Hnames : default_shop_names ≠ [])
    by (unfold default_shop_names; discriminate).
  destruct (get_shops_and_listings_nonempty _ _ _ _ Hnames Hrun)
    as (shop & rest & ->).
  by rewrite print_analysis_to_console_lines.
Qed.

End Analyses.

(** ** Further runs on concrete input *)

Lemma get_descriptions_and_titles_skips_bare_run :
  get_descriptions_and_titles upper split (mug_shop ++ bare_shop ++ mug_shop)
  = get_descriptions_and_titles upper split (mug_shop ++ mug_shop).
Proof.
  apply (get_descriptions_and_titles_skips_bare upper split mug_shop
           bare_shop mug_shop).
  repeat constructor.
Defined.

Lemma clean_words_again_run :
  py "mugs" ≠ []
  ∧ (clean_words isalpha stop_words
       (clean_words isalpha stop_words [py "MU9G"; py "99"; py "A"]
          (py "mugs")).1 (py "mugs")).2
    = (clean_words isalpha stop_words [py "MU9G"; py "99"; py "A"]
         (py "mugs")).2.
Proof.
  assert (Hname : py "mugs" ≠ []) by discriminate.
  split; [exact Hname|].
  exact (proj2 (clean_words_again isalpha stop_words
                  [py "MU9G"; py "99"; py "A"] (py "mugs")) Hname).
Defined.

Lemma get_unique_terms_counts_lookup_run :
  dict_get (get_unique_terms_counts last_seen Sample.mug_words) (py "DOG")
  = if decide (py "DOG" ∈ Sample.mug_words)
    then Some (list_count (py "DOG") Sample.mug_words) else None.
Proof.
  apply (get_unique_terms_counts_lookup last_seen last_seen_distinct).
Defined.

Lemma get_unique_terms_counts_Permutation_run :
  [py "B"; py "M"; py "B"] ≡ₚ [py "B"; py "B"; py "M"]
  ∧ get_unique_terms_counts last_seen [py "B"; py "M"; py "B"]
    ≡ₚ get_unique_terms_counts last_seen [py "B"; py "B"; py "M"].
Proof.
  assert (Hperm : [py "B"; py "M"; py "B"] ≡ₚ [py "B"; py "B"; py "M"]).
  { apply Permutation_skip, Permutation_swap. }
  split; [exact Hperm|].
  exact (get_unique_terms_counts_Permutation last_seen last_seen_distinct
           _ _ Hperm).
Defined.

Lemma get_unique_terms_counts_app_run :
  dict_get
    (get_unique_terms_counts last_seen ([py "B"; py "M"] ++ [py "B"]))
    (py "B")
  = Some (list_count (py "B") [py "B"; py "M"] + list_count (py "B") [py "B"]).
Proof.
  apply (get_unique_terms_counts_app last_seen last_seen_distinct).
  apply list_elem_of_here.
Defined.

Lemma get_top_n_counts_top_run :
  ∃ top_words,
    get_top_n_counts last_seen Sample.mug_words 5 = Ok top_words
    ∧ length top_words = 5
    ∧ StronglySorted (λ a b, b.2 ≤ a.2) top_words
    ∧ Forall (λ pair, pair.1 ∈ Sample.mug_words
                      ∧ pair.2 = list_count pair.1 Sample.mug_words)
        top_words.
Proof.
  apply (get_top_n_counts_top last_seen last_seen_distinct).
  vm_compute. lia.
Defined.

Lemma get_top_n_counts_takes_greatest_run :
  list_count (py "COFFEE") Sample.mug_words ≤ (py "DOG", 2).2.
Proof.
  apply (get_top_n_counts_takes_greatest last_seen last_seen_distinct
           Sample.mug_words 2 [(py "MUG", 3); (py "DOG", 2)]
           (py "DOG", 2) (py "COFFEE")).
  - reflexivity.
  - apply list_elem_of_further, list_elem_of_here.
  - do 2 apply list_elem_of_further. apply list_elem_of_here.
  - intros Hin. apply elem_of_cons in Hin as [Heq|Hin]; [discriminate Heq|].
    apply elem_of_cons in Hin as [Heq|Hin]; [discriminate Heq|].
    by apply elem_of_nil in Hin.
Defined.

Lemma get_top_n_counts_ties_run :
  StronglySorted
    (λ a b, b.2 < a.2
            ∨ (b.2 = a.2 ∧ sublist [a.1; b.1] (last_seen Sample.mug_words)))
    Sample.mug_top_5.
Proof.
  apply (get_top_n_counts_ties last_seen last_seen_distinct
           Sample.mug_words 5).
  reflexivity.
Defined.

Lemma get_top_n_counts_prefix_run :
  get_top_n_counts last_seen Sample.mug_words 2
  = Ok (take 2 Sample.mug_top_5).
Proof.
  apply (get_top_n_counts_prefix last_seen Sample.mug_words 2 5).
  - reflexivity.
  - lia.
Defined.

Lemma nobody_not_found (shop_name : str) (w : unit) :
  ∃ shop w', online [] shop_name w = (Ok shop, w')
             ∧ (status_code shop ≠ 200%Z ∨ results shop = []).
Proof. exists (Response 404 []), w. split; [reflexivity|]. by right. Defined.

Lemma get_shops_and_listings_none_found_run :
  ∃ s',
    get_shops_and_listings isalpha upper split last_seen stop_words unit
      (online []) [py "mugs"; py "bare"] (State tt [])
    = (Ok ((λ shop_name, (shop_name, None)) <$> [py "mugs"; py "bare"]), s')
    ∧ analysed s' = analysed (State tt []).
Proof.
  apply (get_shops_and_listings_none_found isalpha upper split last_seen
           stop_words unit (online [])).
  intros shop_name w _. apply nobody_not_found.
Defined.

Lemma found_shop_is_ranked_run :
  shops_loop isalpha upper split last_seen stop_words unit (online catalogue)
    [py "mugs"] [] (State tt [])
  = (Ok [(py "mugs", Some Sample.mug_top_5)], State tt [py "mugs"])
  ∧ shops_loop isalpha upper split last_seen stop_words unit
      (online catalogue) [py "mugs"; py "nobody"] [] (State tt [])
    = (Ok Sample.mug_run, State tt [py "mugs"]).
Proof.
  destruct (found_shop_is_ranked isalpha upper split last_seen stop_words
              unit (online catalogue) last_seen_distinct (py "mugs")
              [py "nobody"] [] (State tt []) (Response 200 mug_shop) tt)
    as (top_5_words & Htop & _ & Hlast & Hnext).
  - reflexivity.
  - reflexivity.
  - discriminate.
  - vm_compute. lia.
  - assert (Hvalue : top_5_words = Sample.mug_top_5).
    { vm_compute in Htop. injection Htop as <-. reflexivity. }
    subst top_5_words. split; [exact Hlast|]. rewrite Hnext. reflexivity.
Defined.

Lemma mug_run_returned :
  get_shops_and_listings isalpha upper split last_seen stop_words unit
    (online catalogue) [py "mugs"; py "nobody"] (State tt [])
  = (Ok Sample.mug_run, State tt [py "mugs"]).
Proof. vm_compute. reflexivity. Defined.

Lemma get_shops_and_listings_top_5_run :
  Forall (λ entry, ∀ top_5_words, entry.2 = Some top_5_words →
            length top_5_words = 5
            ∧ Forall (λ pair, (pair.1 ∉ stop_words) ∧ 1 ≤ pair.2) top_5_words
            ∧ StronglySorted (λ a b, b.2 ≤ a.2) top_5_words)
    Sample.mug_run.
Proof.
  exact (get_shops_and_listings_top_5 isalpha upper split last_seen
           stop_words unit (online catalogue) last_seen_distinct
           _ _ _ _ mug_run_returned).
Defined.

Lemma print_analysis_of_run_run :
  print_analysis_to_console Repr.word_count Sample.mug_run []
  = (Done tt,
     [py "Top 5 Words for mugs:";
      py "['MUG', 3]['DOG', 2]['BLUE', 2]['COFFEE', 1]['BIRD', 1]";
      py " ";
      py "Sorry! We can't find nobody"]).
Proof.
  rewrite (print_analysis_of_run isalpha upper split last_seen stop_words
             unit (online catalogue) Repr.word_count last_seen_distinct
             _ _ _ _ [] mug_run_returned).
  reflexivity.
Defined.

Lemma custom_analysis_outcome_run :
  custom_analysis isalpha upper split last_seen stop_words unit
    (online catalogue) Repr.word_count [py "nobody"] (State tt []) []
  = (Done tt, State tt [],
     [RUNNING_ANALYSIS_MESSAGE; py "Sorry! We can't find nobody"]).
Proof.
  rewrite (custom_analysis_outcome isalpha upper split last_seen stop_words
             unit (online catalogue) Repr.word_count [py "nobody"]
             (State tt []) []) by discriminate.
  reflexivity.
Defined.

Lemma remove_non_alpha_normalises_run :
  sublist (py "MUG") (remove_non_alpha isalpha (py "MU9G")).
Proof.
  destruct (remove_non_alpha_normalises isalpha (py "MU9G"))
    as (_ & _ & _ & _ & _ & Hkeeps).
  apply Hkeeps.
  - vm_compute. do 2 apply sublist_skip. apply sublist_cons, sublist_skip.
    apply sublist_nil.
  - repeat constructor.
Defined.

(** ** The tokens of the pipeline on ASCII text

    What [get_shops_and_listings] hands to the stop-word filter is made of
    upper-cased words: on ASCII text every such token is its own
    upper-cased form. *)

Lemma upper_char_idem (c : char) : upper_char (upper_char c) = upper_char c.
Proof.
  unfold upper_char, between.
  destruct ((97 <=? c) && (c <=? 122))%N eqn:Hlower; [|by rewrite Hlower].
  apply andb_true_iff in Hlower as [Hlo Hhi].
  apply N.leb_le in Hlo, Hhi.
  assert (Hout : (97 <=? c - 32)%N = false) by (apply N.leb_gt; lia).
  by rewrite Hout.
Qed.

Lemma upper_fixed (word : str) :
  Forall (λ c, upper_char c = c) word → upper word = word.
Proof.
  induction 1 as [|c word Hc _ IH]; [done|].
  unfold upper in *. rewrite fmap_cons. by rewrite Hc, IH.
Qed.

Lemma upper_chars (text : str) : Forall (λ c, upper_char c = c) (upper text).
Proof.
  unfold upper. apply Forall_fmap, Forall_forall. intros c _.
  apply upper_char_idem.
Qed.

Lemma split_loop_chars (P : char → Prop) (cur s : str) :
  Forall P cur → Forall P s → Forall (Forall P) (split_loop cur s).
Proof.
  revert cur. induction s as [|c s IH]; intros cur Hcur Hs; simpl.
  { destruct cur; [done|]. by constructor. }
  apply Forall_cons in Hs as [Hc Hs]. destruct (isspace c).
  - apply Forall_app. split; [|by apply IH].
    destruct cur; [done|]. by constructor.
  - apply IH; [|done]. apply Forall_app. split; [done|]. by constructor.
Qed.

Lemma extracted_words_upper (shop_listings : list listing) :
  Forall (Forall (λ c, upper_char c = c))
    (get_descriptions_and_titles upper split shop_listings).
Proof.
  assert (Hfield : ∀ field : option str,
            Forall (Forall (λ c, upper_char c = c))
              (listing_words upper split field)).
  { intros [text|]; [|done]. simpl. apply split_loop_chars; [done|].
    apply upper_chars. }
  induction shop_listings as [|listing rest IH]; [done|].
  simpl. rewrite !Forall_app. auto.
Qed.

(** On ASCII text, every word the cleaning step of the pipeline returns is
    its own upper-cased form, and that form is outside the stop words. *)
Lemma pipeline_words_upper (W : gset str) (shop_listings : list listing)
    (shop_name : str) :
  Forall (λ token, upper token = token ∧ upper token ∉ W)
    (clean_words isalpha W
       (get_descriptions_and_titles upper split shop_listings) shop_name).2.
Proof.
  rewrite clean_words_spec. cbn [snd]. apply Forall_forall. intros token Hin.
  apply remove_stop_words_elem in Hin as [Hin Hout].
  apply list_elem_of_omap in Hin as (word & Hword & Hkept).
  assert (Hfixed : upper token = token).
  { apply upper_fixed.
    pose proof (extracted_words_upper shop_listings) as Hall.
    rewrite Forall_forall in Hall. specialize (Hall word Hword).
    unfold kept in Hkept.
    destruct (str_isalpha isalpha word || bool_decide (word = shop_name)).
    - by injection Hkept as <-.
    - case_bool_decide; [|done]. injection Hkept as <-.
      unfold remove_non_alpha. rewrite Forall_forall in Hall.
      apply Forall_forall. intros c Hc.
      apply list_elem_of_filter in Hc as [_ Hc]. by apply Hall. }
  split; [done|]. by rewrite Hfixed.
Qed.
